(** * jpl-platformer-2: the fixed-timestep loop, the tile grid and the entities

    A shallow embedding of [src/main.ts] and the properties of its
    specification.

    Conventions of the embedding.
    - The program is embedded twice.  The first embedding takes a
      TypeScript [number] for an exact rational ([Q]): it carries the
      properties of structure, which no sum or product of the program
      enters otherwise than as the expression the code writes (what a
      method leaves unchanged, what an array holds, which calls are made,
      which flag is set by which test).  The second, the module [F64],
      takes a [number] for what it is, an IEEE binary64 value
      ([PrimFloat.float]) with the rounding, the infinities and the NaN of
      the machine: it carries the properties that depend on the values
      computed (the turns of the loop, the frame time, the edges of a
      bounding box).
    - In the first embedding [a == b] is equality of rationals as numbers
      and [=] is equality of representations.
    - A class is a [Module] holding a record [t] for the fields and one
      function per method; a method that mutates [this] returns the new
      [this].
    - Entities are objects referred to from the game's array: the array is a
      list of references ([loc]) into a heap ([gmap loc Entity.t]), so that
      an object that occurs twice in the array is one object.  The bounding
      box of an entity is held inside the entity.
    - The canvas context is a record of its style fields and the list of the
      rectangles drawn so far.
    - The [while] loop of [loop] takes fuel; [None] means the fuel ran out. *)

From Stdlib Require Import Floats.
From Stdlib Require Import QArith Qminmax Qround Lqa Lia String.
From stdpp Require Import gmap list.

Local Open Scope Q_scope.

(** ** Numbers *)

Definition number : Type := Q.

(** [a >= b], [a <= b] and [a > b] as the booleans JavaScript computes. *)
Definition geb (a b : number) : bool := Qle_bool b a.
Definition leb (a b : number) : bool := Qle_bool a b.
Definition gtb (a b : number) : bool := negb (Qle_bool a b).

(** [n] as a number, for array lengths and loop counters. *)
Definition of_nat (n : nat) : number := inject_Z (Z.of_nat n).

(** ** Constants *)

Definition MAX_FRAME_TIME : number := 25 # 100.
Definition DT : number := 1 / 60.

(** ** Utilities *)

Module Vector.
Record t : Type := new { x : number; y : number }.
Definition zero : t := new 0 0.
End Vector.

Module BoundingBox.
Record t : Type := new {
  x : number;
  y : number;
  width : number;
  height : number
}.

(** The assignments [this.x = x'] and [this.y = y']. *)
Definition set_x (x' : number) (this : t) : t :=
  {| x := x'; y := y this; width := width this; height := height this |}.

Definition set_y (y' : number) (this : t) : t :=
  {| x := x this; y := y'; width := width this; height := height this |}.

Definition setPosition (x' y' : number) (this : t) : t :=
  {| x := x'; y := y'; width := width this; height := height this |}.

Definition setSize (width' height' : number) (this : t) : t :=
  {| x := x this; y := y this; width := width'; height := height' |}.

Definition right (this : t) : number := x this + width this.

Definition bottom (this : t) : number := y this + height this.

Definition intersects (this other : t) : bool :=
  negb (geb (x this) (right other)
        || leb (right this) (x other)
        || geb (y this) (bottom other)
        || leb (bottom this) (y other)).
End BoundingBox.

(** ** The canvas

    The part of [CanvasRenderingContext2D] the program uses: three style
    fields and the two rectangle calls, recorded in the order they are
    made. *)

Module Canvas.
Inductive call : Type :=
| FillRect (x y width height : number)
| StrokeRect (x y width height : number).

Record t : Type := mk {
  fillStyle : string;
  strokeStyle : string;
  lineWidth : number;
  calls : list call
}.

Definition set_fillStyle (s : string) (ctx : t) : t :=
  {| fillStyle := s; strokeStyle := strokeStyle ctx;
     lineWidth := lineWidth ctx; calls := calls ctx |}.

Definition set_strokeStyle (s : string) (ctx : t) : t :=
  {| fillStyle := fillStyle ctx; strokeStyle := s;
     lineWidth := lineWidth ctx; calls := calls ctx |}.

Definition set_lineWidth (w : number) (ctx : t) : t :=
  {| fillStyle := fillStyle ctx; strokeStyle := strokeStyle ctx;
     lineWidth := w; calls := calls ctx |}.

Definition draw (c : call) (ctx : t) : t :=
  {| fillStyle := fillStyle ctx; strokeStyle := strokeStyle ctx;
     lineWidth := lineWidth ctx; calls := calls ctx ++ [c] |}.

Definition fillRect (x y width height : number) : t -> t :=
  draw (FillRect x y width height).

Definition strokeRect (x y width height : number) : t -> t :=
  draw (StrokeRect x y width height).
End Canvas.

(** ** DrawUtil *)

Module DrawUtil.
Definition drawFilledStrokedRect (ctx : Canvas.t)
    (fillColor strokeColor : string)
    (x y width height strokeWidth : number) : Canvas.t :=
  let ctx := Canvas.set_fillStyle fillColor ctx in
  let ctx := Canvas.fillRect x y width height ctx in
  let ctx := Canvas.set_strokeStyle strokeColor ctx in
  let ctx := Canvas.set_lineWidth strokeWidth ctx in
  Canvas.strokeRect x y width height ctx.
End DrawUtil.

(** ** Tile *)

Module Tile.
Definition size : number := 24.

Record t : Type := mk {
  id : number;
  row : number;
  col : number;
  x : number;
  y : number
}.

Definition new (id row col : number) : t :=
  {| id := id; row := row; col := col;
     x := col * size; y := row * size |}.

Definition render (ctx : Canvas.t) (this : t) : Canvas.t :=
  if Qeq_bool (id this) 1
  then Canvas.strokeRect (x this) (y this) size size ctx
  else ctx.
End Tile.

(** ** Entity

    The methods of the abstract class as the class defines them; [render]
    is abstract and is a parameter of what calls it. *)

Definition loc : Type := nat.

Module Entity.
Record t : Type := mk {
  colorString : string;
  bb : BoundingBox.t;
  velocity : Vector.t;
  finished : bool
}.

Definition new (colorString : string) (bb : BoundingBox.t)
    (velocity : Vector.t) : t :=
  {| colorString := colorString; bb := bb; velocity := velocity;
     finished := false |}.

(** The bounding box of [this] after an assignment to one of its
    fields. *)
Definition set_bb (bb' : BoundingBox.t) (this : t) : t :=
  {| colorString := colorString this; bb := bb';
     velocity := velocity this; finished := finished this |}.

Definition updatePosition (dt : number) (this : t) : t :=
  let this :=
    set_bb (BoundingBox.set_x
              (BoundingBox.x (bb this) + Vector.x (velocity this) * dt)
              (bb this)) this in
  set_bb (BoundingBox.set_y
            (BoundingBox.y (bb this) + Vector.y (velocity this) * dt)
            (bb this)) this.

Definition onEntityCollide (sender : loc) (this : t) : t := this.

Definition getCollidingEntities (this : t) : list loc := [].

Definition handleEvents (this : t) : t :=
  foldl (fun this e => onEntityCollide e this) this
        (getCollidingEntities this).

Definition update (dt : number) (this : t) : t :=
  let this := updatePosition dt this in
  handleEvents this.

Definition die (this : t) : t :=
  {| colorString := colorString this; bb := bb this;
     velocity := velocity this; finished := true |}.
End Entity.

(** ** Game

    [entities] is the array of references, [heap] the objects they refer
    to.  A method called through a reference changes the object in the
    heap. *)

Module Game.
Record t : Type := mk {
  tiles : list (list Tile.t);
  entities : list loc;
  heap : gmap loc Entity.t
}.

Definition new (tiles : list (list Tile.t)) (entities : list loc)
    (heap : gmap loc Entity.t) : t :=
  {| tiles := tiles; entities := entities; heap := heap |}.

(** [tiles.length * Tile.size], below which an entity dies. *)
Definition bottom (tiles : list (list Tile.t)) : number :=
  of_nat (length tiles) * Tile.size.

(** The body of the [forEach] of [update], on the entity [e]. *)
Definition update_entity (dt : number) (tiles : list (list Tile.t))
    (h : gmap loc Entity.t) (e : loc) : gmap loc Entity.t :=
  let h := alter (Entity.update dt) e h in
  match h !! e with
  | Some o =>
      if gtb (BoundingBox.y (Entity.bb o)) (bottom tiles)
      then alter Entity.die e h
      else h
  | None => h
  end.

Definition update (dt : number) (this : t) : t :=
  {| tiles := tiles this;
     entities := entities this;
     heap := foldl (update_entity dt (tiles this)) (heap this)
                   (entities this) |}.

Section Render.
(** The [render] of the concrete classes. *)
Variable Entity_render : Entity.t -> Canvas.t -> Canvas.t.

Definition render (ctx : Canvas.t) (this : t) : Canvas.t :=
  let ctx :=
    foldl (fun ctx row => foldl Tile.render ctx row) ctx (tiles this) in
  foldl (fun ctx e =>
           match heap this !! e with
           | Some o => Entity_render o ctx
           | None => ctx
           end) ctx (entities this).
End Render.
End Game.

(** ** Main loop

    [previousTime] and [accumulator] are the two variables of the module.
    One call of [loop] is one animation frame; the call it schedules is the
    next one, on the state this one leaves. *)

Record Globals : Type := mkGlobals {
  previousTime : number;
  accumulator : number
}.

Definition initial : Globals := {| previousTime := 0; accumulator := 0 |}.

Definition frameTime (currentTime : number) (g : Globals) : number :=
  Qmin ((currentTime - previousTime g) / 1000) MAX_FRAME_TIME.

(** The [while] loop: the accumulator and the game it leaves, and the
    argument of each call of [game.update], in the order of the calls. *)
Fixpoint while_loop (fuel : nat) (accumulator : number) (game : Game.t)
    : option (number * Game.t * list number) :=
  if geb accumulator DT then
    match fuel with
    | O => None
    | S fuel =>
        let accumulator := accumulator - DT in
        let game := Game.update DT game in
        match while_loop fuel accumulator game with
        | Some (accumulator, game, updates) =>
            Some (accumulator, game, DT :: updates)
        | None => None
        end
    end
  else Some (accumulator, game, []).

(** What one call of [loop] leaves. *)
Record Frame : Type := mkFrame {
  frame_globals : Globals;
  frame_ctx : Canvas.t;
  frame_game : Game.t;
  frame_updates : list number
}.

Section Loop.
Variable Entity_render : Entity.t -> Canvas.t -> Canvas.t.

Definition loop (fuel : nat) (currentTime : number) (ctx : Canvas.t)
    (game : Game.t) (g : Globals) : option Frame :=
  let frameTime := frameTime currentTime g in
  let accumulator := accumulator g + frameTime in
  match while_loop fuel accumulator game with
  | Some (accumulator, game, updates) =>
      let ctx := Game.render Entity_render ctx game in
      Some {| frame_globals := {| previousTime := currentTime;
                                  accumulator := accumulator |};
              frame_ctx := ctx; frame_game := game;
              frame_updates := updates |}
  | None => None
  end.

(** The frames of the timestamps [ts], each on what the one before it
    left, with the updates of all of them in order. *)
Fixpoint frames (fuel : nat) (ts : list number) (ctx : Canvas.t)
    (game : Game.t) (g : Globals) : option Frame :=
  match ts with
  | [] =>
      Some {| frame_globals := g; frame_ctx := ctx; frame_game := game;
              frame_updates := [] |}
  | currentTime :: ts =>
      match loop fuel currentTime ctx game g with
      | Some f =>
          match
            frames fuel ts (frame_ctx f) (frame_game f) (frame_globals f)
          with
          | Some f' =>
              Some {| frame_globals := frame_globals f';
                      frame_ctx := frame_ctx f';
                      frame_game := frame_game f';
                      frame_updates := frame_updates f ++ frame_updates f' |}
          | None => None
          end
      | None => None
      end
  end.
End Loop.

(** ** Main *)

(** A loop over the elements of [l] whose body can fail. *)
Fixpoint for_each {A S : Type} (body : A -> S -> option S) (l : list A)
    (s : S) : option S :=
  match l with
  | [] => Some s
  | a :: l =>
      match body a s with
      | Some s => for_each body l s
      | None => None
      end
  end.

Definition map : list (list number) := [
    [1; 1; 1; 1; 1; 1; 1; 1; 1; 1; 1; 1; 1; 1; 1; 1; 1; 1; 1; 1; 1; 1; 1; 1; 1];
    [1; 0; 0; 0; 1; 0; 0; 0; 0; 0; 0; 0; 0; 0; 1; 0; 0; 0; 0; 0; 1; 0; 0; 0; 2];
    [1; 0; 0; 0; 1; 0; 0; 0; 0; 0; 0; 0; 0; 0; 1; 0; 0; 0; 0; 0; 1; 0; 0; 0; 0];
    [1; 0; 1; 0; 0; 0; 0; 0; 0; 0; 0; 0; 0; 0; 0; 0; 0; 0; 1; 0; 1; 0; 0; 0; 0];
    [1; 0; 1; 0; 0; 0; 0; 0; 1; 0; 0; 0; 0; 1; 1; 1; 0; 0; 1; 0; 1; 0; 0; 0; 0];
    [1; 0; 1; 0; 0; 0; 0; 0; 0; 0; 0; 0; 0; 0; 1; 0; 0; 0; 1; 0; 1; 1; 0; 0; 0];
    [1; 0; 1; 0; 0; 0; 0; 0; 0; 0; 0; 0; 0; 0; 1; 0; 0; 0; 1; 0; 1; 0; 0; 0; 0];
    [1; 0; 1; 1; 0; 0; 0; 0; 0; 0; 0; 0; 0; 0; 1; 0; 0; 0; 1; 0; 1; 0; 0; 0; 0];
    [1; 0; 0; 0; 0; 0; 0; 0; 0; 0; 0; 0; 0; 0; 1; 0; 0; 1; 1; 0; 1; 1; 0; 0; 0];
    [1; 0; 0; 1; 1; 0; 0; 0; 0; 0; 0; 0; 0; 0; 1; 0; 0; 0; 1; 0; 1; 0; 0; 0; 0];
    [1; 0; 0; 0; 1; 0; 0; 0; 0; 1; 0; 0; 0; 0; 1; 0; 0; 0; 1; 0; 1; 0; 0; 0; 0];
    [1; 0; 0; 0; 1; 1; 1; 1; 1; 1; 0; 0; 0; 0; 1; 0; 0; 0; 1; 0; 1; 1; 0; 0; 0];
    [1; 0; 0; 0; 0; 0; 0; 0; 0; 0; 0; 0; 0; 1; 1; 1; 0; 0; 1; 0; 1; 0; 0; 0; 0];
    [1; 1; 0; 0; 0; 0; 0; 0; 0; 0; 0; 0; 0; 0; 0; 0; 0; 0; 1; 0; 1; 0; 0; 0; 0];
    [1; 1; 1; 1; 1; 1; 1; 1; 1; 1; 1; 1; 1; 1; 1; 1; 1; 1; 1; 0; 1; 1; 1; 0; 0];
    [1; 0; 0; 0; 0; 0; 0; 0; 0; 0; 0; 0; 0; 0; 0; 0; 0; 0; 0; 0; 0; 0; 1; 0; 0];
    [1; 0; 0; 0; 0; 0; 0; 0; 0; 0; 0; 0; 0; 0; 0; 0; 0; 0; 0; 0; 0; 0; 1; 0; 0];
    [1; 0; 0; 0; 0; 0; 0; 0; 0; 0; 0; 0; 0; 0; 0; 0; 0; 0; 0; 0; 0; 0; 1; 1; 0];
    [1; 0; 0; 0; 0; 0; 0; 0; 0; 0; 0; 0; 0; 0; 0; 0; 0; 0; 0; 0; 0; 0; 0; 0; 0];
    [1; 0; 0; 0; 0; 0; 0; 0; 1; 0; 0; 0; 0; 0; 0; 0; 0; 0; 0; 0; 0; 0; 0; 0; 0];
    [1; 1; 0; 0; 0; 0; 0; 0; 0; 0; 0; 0; 0; 0; 0; 0; 0; 0; 0; 0; 0; 0; 1; 1; 0];
    [1; 0; 0; 0; 0; 0; 0; 0; 0; 0; 0; 0; 0; 0; 0; 1; 0; 0; 0; 0; 0; 0; 1; 0; 0];
    [1; 0; 0; 0; 0; 0; 0; 0; 0; 0; 0; 0; 0; 0; 0; 0; 0; 0; 0; 0; 0; 0; 1; 0; 0];
    [1; 1; 0; 0; 0; 0; 0; 0; 0; 0; 0; 0; 0; 0; 0; 0; 0; 0; 0; 0; 0; 0; 1; 0; 0];
    [1; 0; 0; 0; 0; 0; 0; 0; 0; 0; 0; 0; 0; 0; 0; 0; 0; 0; 0; 0; 0; 0; 1; 0; 0];
    [1; 0; 0; 0; 0; 0; 0; 0; 0; 0; 0; 0; 0; 0; 1; 0; 0; 0; 0; 0; 0; 0; 1; 0; 0];
    [1; 0; 0; 0; 0; 0; 0; 1; 0; 0; 0; 0; 0; 0; 0; 0; 0; 0; 0; 0; 0; 1; 1; 0; 0];
    [0; 0; 0; 0; 0; 0; 0; 0; 0; 0; 0; 0; 0; 0; 0; 0; 0; 0; 0; 0; 0; 0; 0; 0; 0];
    [0; 0; 0; 0; 0; 0; 0; 0; 0; 0; 0; 0; 0; 0; 0; 0; 0; 0; 0; 0; 0; 0; 0; 0; 0];
    [0; 0; 0; 0; 0; 0; 0; 0; 0; 0; 0; 0; 0; 0; 0; 0; 0; 0; 0; 0; 0; 0; 0; 0; 0];
    [0; 0; 0; 0; 0; 0; 0; 0; 0; 0; 0; 0; 0; 0; 0; 0; 0; 0; 0; 0; 0; 0; 0; 0; 0];
    [0; 0; 0; 0; 0; 0; 0; 0; 0; 0; 0; 0; 0; 0; 0; 0; 0; 0; 0; 0; 0; 0; 0; 0; 0];
    [0; 0; 0; 0; 0; 0; 0; 0; 0; 0; 0; 0; 0; 0; 0; 0; 0; 0; 0; 0; 0; 0; 0; 0; 0];
    [0; 0; 0; 0; 0; 0; 0; 0; 0; 0; 0; 0; 0; 0; 0; 0; 0; 0; 0; 0; 0; 0; 0; 0; 0];
    [0; 0; 0; 0; 0; 0; 0; 0; 0; 0; 0; 0; 0; 0; 0; 0; 0; 0; 0; 0; 0; 0; 0; 0; 0];
    [0; 0; 0; 0; 0; 0; 0; 0; 0; 0; 0; 0; 0; 0; 0; 0; 0; 0; 0; 0; 0; 0; 0; 0; 0];
    [0; 0; 0; 0; 0; 0; 0; 0; 0; 0; 0; 0; 0; 0; 0; 0; 0; 0; 0; 0; 0; 0; 0; 0; 0];
    [0; 0; 0; 0; 0; 0; 0; 0; 0; 0; 0; 0; 0; 0; 0; 0; 0; 0; 0; 0; 0; 0; 0; 0; 0];
    [0; 0; 0; 0; 0; 0; 0; 0; 0; 0; 0; 0; 0; 0; 0; 0; 0; 0; 0; 0; 0; 0; 0; 0; 0];
    [0; 0; 0; 0; 0; 0; 0; 0; 0; 0; 0; 0; 0; 0; 0; 0; 0; 0; 0; 0; 0; 0; 0; 0; 0];
    [0; 0; 0; 0; 0; 0; 0; 0; 0; 0; 0; 0; 0; 0; 0; 0; 0; 0; 0; 0; 0; 0; 0; 0; 0];
    [0; 0; 0; 0; 0; 0; 0; 0; 0; 0; 0; 0; 0; 0; 0; 0; 0; 0; 0; 0; 0; 0; 0; 0; 0]
  ].

(** [tiles[r].push(t)]; there must be a row [r]. *)
Definition push_at (r : nat) (t : Tile.t) (tiles : list (list Tile.t))
    : option (list (list Tile.t)) :=
  match tiles !! r with
  | Some row => Some (<[r := row ++ [t]]> tiles)
  | None => None
  end.

(** The two loops that build the grid, on any map. *)
Definition build_row (map : list (list number)) (r : nat)
    (tiles : list (list Tile.t)) : option (list (list Tile.t)) :=
  match map !! r with
  | Some mrow =>
      match
        for_each (fun c tiles =>
                    match mrow !! c with
                    | Some id => push_at r (Tile.new id (of_nat r) (of_nat c))
                                         tiles
                    | None => None
                    end) (seq 0 (length mrow)) tiles
      with
      | Some tiles => Some (tiles ++ [[]])
      | None => None
      end
  | None => None
  end.

Definition build_tiles (map : list (list number))
    : option (list (list Tile.t)) :=
  for_each (build_row map) (seq 0 (length map)) [[]].

(** The game [main] hands to the first frame. *)
Definition main : option Game.t :=
  match build_tiles map with
  | Some tiles => Some (Game.new tiles [] ∅)
  | None => None
  end.

(** ** The program on binary64

    The same classes and the same loop with the numbers of JavaScript:
    [number] is an IEEE binary64 value, and sums, differences, products
    and quotients round as the machine rounds them. *)

Module F64.
Local Open Scope float_scope.

Definition number : Type := float.

(** [a >= b], [a <= b], [a > b] and [a == b]: false when one of the two is
    NaN. *)
Definition geb (a b : number) : bool := b <=? a.
Definition leb (a b : number) : bool := a <=? b.
Definition gtb (a b : number) : bool := b <? a.
Definition eqb (a b : number) : bool := a =? b.

(** [n] as a number, for array lengths. *)
Definition of_nat (n : nat) : number :=
  SF2Prim (binary_normalize prec emax (Z.of_nat n) 0 false).

(** [Math.min] of two numbers: NaN when one of them is NaN, the second
    when it is below the first or is [-0] against [+0], else the first. *)
Definition Math_min (a b : number) : number :=
  if is_nan a || is_nan b then nan
  else if (b <? a)
          || (is_zero a && is_zero b && get_sign b && negb (get_sign a))
       then b
       else a.

Definition MAX_FRAME_TIME : number := 0.25.
Definition DT : number := 1 / 60.

Module Vector.
Record t : Type := new { x : number; y : number }.
Definition zero : t := new 0 0.
End Vector.

Module BoundingBox.
Record t : Type := new {
  x : number;
  y : number;
  width : number;
  height : number
}.

Definition set_x (x' : number) (this : t) : t :=
  {| x := x'; y := y this; width := width this; height := height this |}.

Definition set_y (y' : number) (this : t) : t :=
  {| x := x this; y := y'; width := width this; height := height this |}.

Definition setPosition (x' y' : number) (this : t) : t :=
  {| x := x'; y := y'; width := width this; height := height this |}.

Definition setSize (width' height' : number) (this : t) : t :=
  {| x := x this; y := y this; width := width'; height := height' |}.

Definition right (this : t) : number := x this + width this.

Definition bottom (this : t) : number := y this + height this.

Definition intersects (this other : t) : bool :=
  negb (geb (x this) (right other)
        || leb (right this) (x other)
        || geb (y this) (bottom other)
        || leb (bottom this) (y other)).
End BoundingBox.

Module Canvas.
Inductive call : Type :=
| FillRect (x y width height : number)
| StrokeRect (x y width height : number).

Record t : Type := mk {
  fillStyle : string;
  strokeStyle : string;
  lineWidth : number;
  calls : list call
}.

Definition draw (c : call) (ctx : t) : t :=
  {| fillStyle := fillStyle ctx; strokeStyle := strokeStyle ctx;
     lineWidth := lineWidth ctx; calls := calls ctx ++ [c] |}.

Definition strokeRect (x y width height : number) : t -> t :=
  draw (StrokeRect x y width height).
End Canvas.

Module Tile.
Definition size : number := 24.

Record t : Type := mk {
  id : number;
  row : number;
  col : number;
  x : number;
  y : number
}.

Definition new (id row col : number) : t :=
  {| id := id; row := row; col := col;
     x := col * size; y := row * size |}.

Definition render (ctx : Canvas.t) (this : t) : Canvas.t :=
  if eqb (id this) 1
  then Canvas.strokeRect (x this) (y this) size size ctx
  else ctx.
End Tile.

Module Entity.
Record t : Type := mk {
  colorString : string;
  bb : BoundingBox.t;
  velocity : Vector.t;
  finished : bool
}.

Definition new (colorString : string) (bb : BoundingBox.t)
    (velocity : Vector.t) : t :=
  {| colorString := colorString; bb := bb; velocity := velocity;
     finished := false |}.

Definition set_bb (bb' : BoundingBox.t) (this : t) : t :=
  {| colorString := colorString this; bb := bb';
     velocity := velocity this; finished := finished this |}.

Definition updatePosition (dt : number) (this : t) : t :=
  let this :=
    set_bb (BoundingBox.set_x
              (BoundingBox.x (bb this) + Vector.x (velocity this) * dt)
              (bb this)) this in
  set_bb (BoundingBox.set_y
            (BoundingBox.y (bb this) + Vector.y (velocity this) * dt)
            (bb this)) this.

Definition onEntityCollide (sender : loc) (this : t) : t := this.

Definition getCollidingEntities (this : t) : list loc := [].

Definition handleEvents (this : t) : t :=
  foldl (fun this e => onEntityCollide e this) this
        (getCollidingEntities this).

Definition update (dt : number) (this : t) : t :=
  let this := updatePosition dt this in
  handleEvents this.

Definition die (this : t) : t :=
  {| colorString := colorString this; bb := bb this;
     velocity := velocity this; finished := true |}.
End Entity.

Module Game.
Record t : Type := mk {
  tiles : list (list Tile.t);
  entities : list loc;
  heap : gmap loc Entity.t
}.

Definition new (tiles : list (list Tile.t)) (entities : list loc)
    (heap : gmap loc Entity.t) : t :=
  {| tiles := tiles; entities := entities; heap := heap |}.

Definition bottom (tiles : list (list Tile.t)) : number :=
  of_nat (length tiles) * Tile.size.

Definition update_entity (dt : number) (tiles : list (list Tile.t))
    (h : gmap loc Entity.t) (e : loc) : gmap loc Entity.t :=
  let h := alter (Entity.update dt) e h in
  match h !! e with
  | Some o =>
      if gtb (BoundingBox.y (Entity.bb o)) (bottom tiles)
      then alter Entity.die e h
      else h
  | None => h
  end.

Definition update (dt : number) (this : t) : t :=
  {| tiles := tiles this;
     entities := entities this;
     heap := foldl (update_entity dt (tiles this)) (heap this)
                   (entities this) |}.

Section Render.
Variable Entity_render : Entity.t -> Canvas.t -> Canvas.t.

Definition render (ctx : Canvas.t) (this : t) : Canvas.t :=
  let ctx :=
    foldl (fun ctx row => foldl Tile.render ctx row) ctx (tiles this) in
  foldl (fun ctx e =>
           match heap this !! e with
           | Some o => Entity_render o ctx
           | None => ctx
           end) ctx (entities this).
End Render.
End Game.

Record Globals : Type := mkGlobals {
  previousTime : number;
  accumulator : number
}.

Definition initial : Globals := {| previousTime := 0; accumulator := 0 |}.

Definition frameTime (currentTime : number) (g : Globals) : number :=
  Math_min ((currentTime - previousTime g) / 1000) MAX_FRAME_TIME.

Fixpoint while_loop (fuel : nat) (accumulator : number) (game : Game.t)
    : option (number * Game.t * list number) :=
  if geb accumulator DT then
    match fuel with
    | O => None
    | S fuel =>
        let accumulator := accumulator - DT in
        let game := Game.update DT game in
        match while_loop fuel accumulator game with
        | Some (accumulator, game, updates) =>
            Some (accumulator, game, DT :: updates)
        | None => None
        end
    end
  else Some (accumulator, game, []).

Record Frame : Type := mkFrame {
  frame_globals : Globals;
  frame_ctx : Canvas.t;
  frame_game : Game.t;
  frame_updates : list number
}.

Section Loop.
Variable Entity_render : Entity.t -> Canvas.t -> Canvas.t.

Definition loop (fuel : nat) (currentTime : number) (ctx : Canvas.t)
    (game : Game.t) (g : Globals) : option Frame :=
  let frameTime := frameTime currentTime g in
  let accumulator := accumulator g + frameTime in
  match while_loop fuel accumulator game with
  | Some (accumulator, game, updates) =>
      let ctx := Game.render Entity_render ctx game in
      Some {| frame_globals := {| previousTime := currentTime;
                                  accumulator := accumulator |};
              frame_ctx := ctx; frame_game := game;
              frame_updates := updates |}
  | None => None
  end.

(** The frames of the timestamps [ts], each on what the one before it
    left, with the updates of all of them in order. *)
Fixpoint frames (fuel : nat) (ts : list number) (ctx : Canvas.t)
    (game : Game.t) (g : Globals) : option Frame :=
  match ts with
  | [] =>
      Some {| frame_globals := g; frame_ctx := ctx; frame_game := game;
              frame_updates := [] |}
  | currentTime :: ts =>
      match loop fuel currentTime ctx game g with
      | Some f =>
          match
            frames fuel ts (frame_ctx f) (frame_game f) (frame_globals f)
          with
          | Some f' =>
              Some {| frame_globals := frame_globals f';
                      frame_ctx := frame_ctx f';
                      frame_game := frame_game f';
                      frame_updates := frame_updates f ++ frame_updates f' |}
          | None => None
          end
      | None => None
      end
  end.
End Loop.
End F64.

(** ** Vocabulary of the properties *)

(** The invariant the specification gives for a bounding box. *)
Definition bb_inv (b : BoundingBox.t) : Prop :=
  0 <= BoundingBox.width b /\ 0 <= BoundingBox.height b.

(** The object at [l] exists and its [finished] flag is set. *)
Definition dead (h : gmap loc Entity.t) (l : loc) : Prop :=
  exists e, h !! l = Some e /\ Entity.finished e = true.

(** What the body of the [forEach] of [Game.update] leaves of the
    object [e]. *)
Definition updated (dt : number) (tiles : list (list Tile.t))
    (e : Entity.t) : Entity.t :=
  let o := Entity.update dt e in
  if gtb (BoundingBox.y (Entity.bb o)) (Game.bottom tiles)
  then Entity.die o
  else o.

(** The grid that holds, at row [r] and column [c], the tile of id
    [map[r][c]], of row [r] and of column [c]. *)
Definition tile_row (r : nat) (mrow : list number) : list Tile.t :=
  imap (fun c id => Tile.new id (of_nat r) (of_nat c)) mrow.

Definition tile_grid (map : list (list number)) : list (list Tile.t) :=
  imap tile_row map.

(** A game of three rows of tiles and two entities that fall at 48 units
    a second: the object 0 from below the grid, the object 1 from its
    top. *)
Definition two_entities : Game.t :=
  Game.new [[]; []; []] [0%nat; 1%nat]
    (<[0%nat := Entity.new "red" (BoundingBox.new 0 100 5 5)
                           (Vector.new 0 48)]>
       (<[1%nat := Entity.new "blue" (BoundingBox.new 0 10 5 5)
                              (Vector.new 0 48)]> ∅)).

(** A game of three rows of tiles whose array lists one object twice:
    an entity at [y = 74] that rises at 60 units a second. *)
Definition listed_twice : Game.t :=
  Game.new [[]; []; []] [0%nat; 0%nat]
    (<[0%nat := Entity.new "red" (BoundingBox.new 0 74 5 5)
                           (Vector.new 0 (-60))]> ∅).


(** How many times the array [ls] refers to the object [l]. *)
Definition occurrences (l : loc) (ls : list loc) : nat :=
  count_occ Nat.eq_dec ls l.

(** The draw calls of a tile and of a grid: one square for each tile of
    id 1, row after row. *)
Definition tile_calls (t : Tile.t) : list Canvas.call :=
  if Qeq_bool (Tile.id t) 1
  then [Canvas.StrokeRect (Tile.x t) (Tile.y t) Tile.size Tile.size]
  else [].

Definition wall_calls (tiles : list (list Tile.t)) : list Canvas.call :=
  tiles ≫= (fun row => row ≫= tile_calls).

(** The context [ctx] after the draw calls [cs]. *)
Definition drawn (cs : list Canvas.call) (ctx : Canvas.t) : Canvas.t :=
  Canvas.mk (Canvas.fillStyle ctx) (Canvas.strokeStyle ctx)
            (Canvas.lineWidth ctx) (Canvas.calls ctx ++ cs).

(** *** Binary64 numbers as exact numbers *)

(** The rank of a binary64 number: its value in units of [2^-1074], the
    infinities beyond every finite number. *)
Definition SFrank (f : spec_float) : Z :=
  match f with
  | S754_zero _ => 0
  | S754_infinity s => if s then - 2 ^ 2200 else 2 ^ 2200
  | S754_nan => 0
  | S754_finite s m e =>
      if s then - (Zpos m * 2 ^ (e + 1074)) else Zpos m * 2 ^ (e + 1074)
  end%Z.

Definition rank (x : float) : Z := SFrank (Prim2SF x).

(** The value of a finite binary64 number. *)
Definition to_Q (x : float) : Q := rank x # 2 ^ 1074.

(** Zero of either sign, a positive number or plus infinity. *)
Definition SFnonneg (f : spec_float) : Prop :=
  match f with
  | S754_zero _ | S754_infinity false | S754_finite false _ _ => True
  | _ => False
  end.

(** *** Rectangles *)

(** What the intervals [[x1, r1]] and [[x2, r2]] have in common, and the
    area of a common part of width [w] and height [h]: none when one of
    the two is not positive. *)
Definition overlap (x1 r1 x2 r2 : Q) : Q := Qmin r1 r2 - Qmax x1 x2.

Definition area (w h : Q) : Q := Qmax 0 w * Qmax 0 h.

(** The area that the rectangles [{x, y, width, height}] have in common,
    with exact sums. *)
Definition exact_overlap_area (a b : F64.BoundingBox.t) : Q :=
  area (overlap (to_Q (F64.BoundingBox.x a))
                (to_Q (F64.BoundingBox.x a) + to_Q (F64.BoundingBox.width a))
                (to_Q (F64.BoundingBox.x b))
                (to_Q (F64.BoundingBox.x b) + to_Q (F64.BoundingBox.width b)))
       (overlap (to_Q (F64.BoundingBox.y a))
                (to_Q (F64.BoundingBox.y a) + to_Q (F64.BoundingBox.height a))
                (to_Q (F64.BoundingBox.y b))
                (to_Q (F64.BoundingBox.y b)
                 + to_Q (F64.BoundingBox.height b))).

(** The area that the rectangles from [x] to [right()] and from [y] to
    [bottom()] have in common, [right()] and [bottom()] being the rounded
    sums the code computes. *)
Definition computed_overlap_area (a b : F64.BoundingBox.t) : Q :=
  area (overlap (to_Q (F64.BoundingBox.x a)) (to_Q (F64.BoundingBox.right a))
                (to_Q (F64.BoundingBox.x b)) (to_Q (F64.BoundingBox.right b)))
       (overlap (to_Q (F64.BoundingBox.y a)) (to_Q (F64.BoundingBox.bottom a))
                (to_Q (F64.BoundingBox.y b))
                (to_Q (F64.BoundingBox.bottom b))).

(** None of [x], [y], [right()] and [bottom()] is NaN; none is NaN or
    infinite. *)
Definition no_nan (a : F64.BoundingBox.t) : bool :=
  negb (is_nan (F64.BoundingBox.x a) || is_nan (F64.BoundingBox.y a)
        || is_nan (F64.BoundingBox.right a)
        || is_nan (F64.BoundingBox.bottom a)).

Definition finite_box (a : F64.BoundingBox.t) : bool :=
  is_finite (F64.BoundingBox.x a) && is_finite (F64.BoundingBox.y a)
  && is_finite (F64.BoundingBox.right a)
  && is_finite (F64.BoundingBox.bottom a).

(** [right()] and [bottom()] are the exact sums: nothing was rounded. *)
Definition exact_edges (a : F64.BoundingBox.t) : Prop :=
  to_Q (F64.BoundingBox.right a)
    == to_Q (F64.BoundingBox.x a) + to_Q (F64.BoundingBox.width a) /\
  to_Q (F64.BoundingBox.bottom a)
    == to_Q (F64.BoundingBox.y a) + to_Q (F64.BoundingBox.height a).

(** [right()] is past [x] and [bottom()] past [y]. *)
Definition has_extent (a : F64.BoundingBox.t) : bool :=
  F64.gtb (F64.BoundingBox.right a) (F64.BoundingBox.x a)
  && F64.gtb (F64.BoundingBox.bottom a) (F64.BoundingBox.y a).

(** The box [a] lies within the box [b], edges included, by the edges the
    code computes. *)
Definition within (a b : F64.BoundingBox.t) : bool :=
  F64.leb (F64.BoundingBox.x b) (F64.BoundingBox.x a)
  && F64.leb (F64.BoundingBox.right a) (F64.BoundingBox.right b)
  && F64.leb (F64.BoundingBox.y b) (F64.BoundingBox.y a)
  && F64.leb (F64.BoundingBox.bottom a) (F64.BoundingBox.bottom b).

(** *** The loop *)

(** The accumulator [a] after [n] turns of the loop: [DT] taken from it
    [n] times, each difference rounded. *)
Definition drain (n : nat) (a : float) : float :=
  Nat.iter n (fun a => (a - F64.DT)%float) a.

Section Examples.
Local Open Scope float_scope.

(** A canvas nothing was drawn on, a [render] that draws nothing, and a
    game of three rows of three empty tiles with one entity at [y = 0]
    that falls at 48 units a second. *)
Definition blank : F64.Canvas.t := F64.Canvas.mk "#000000" "#000000" 1 [].

Definition no_render (e : F64.Entity.t) (ctx : F64.Canvas.t)
    : F64.Canvas.t := ctx.

Definition falling : F64.Game.t :=
  F64.Game.new
    [ [F64.Tile.new 0 0 0; F64.Tile.new 0 0 1; F64.Tile.new 0 0 2];
      [F64.Tile.new 0 1 0; F64.Tile.new 0 1 1; F64.Tile.new 0 1 2];
      [F64.Tile.new 0 2 0; F64.Tile.new 0 2 1; F64.Tile.new 0 2 2] ]
    [0%nat]
    (<[0%nat := F64.Entity.new "red" (F64.BoundingBox.new 0 0 5 5)
                               (F64.Vector.new 0 48)]> ∅).

(** The game without tiles and entities, and the timestamp
    216.66666666666666. *)
Definition empty_game : F64.Game.t := F64.Game.new [] [] ∅.


(** The boxes [{0,0,10,10}], [{10,0,10,10}], [{9,0,10,10}], [{5,5,0,0}],
    [{2^53,0,1,1}], [{0,0,1.1,10}] and [{0.3,0,10,10}]. *)
Definition box_0_0_10_10 : F64.BoundingBox.t := F64.BoundingBox.new 0 0 10 10.

Definition box_10_0_10_10 : F64.BoundingBox.t :=
  F64.BoundingBox.new 10 0 10 10.

Definition box_9_0_10_10 : F64.BoundingBox.t := F64.BoundingBox.new 9 0 10 10.

Definition point_5_5 : F64.BoundingBox.t := F64.BoundingBox.new 5 5 0 0.

Definition far_box : F64.BoundingBox.t := F64.BoundingBox.new 0x1p+53 0 1 1.

Definition box_a : F64.BoundingBox.t :=
  F64.BoundingBox.new 0 0 0x1.199999999999ap+0 10.

Definition box_b : F64.BoundingBox.t :=
  F64.BoundingBox.new 0x1.3333333333333p-2 0 10 10.
End Examples.

(** * Properties *)

(** ** Comparisons *)

Lemma geb_true a b : geb a b = true <-> b <= a.
Proof. apply Qle_bool_iff. Qed.

Lemma leb_true a b : leb a b = true <-> a <= b.
Proof. apply Qle_bool_iff. Qed.

Lemma leb_false a b : leb a b = false <-> b < a.
Proof.
  unfold leb. split.
  - intros H. apply Qnot_le_lt. intros Hle.
    apply Qle_bool_iff in Hle. congruence.
  - intros H. destruct (Qle_bool a b) eqn:E; [|reflexivity].
    apply Qle_bool_iff in E. lra.
Qed.

Lemma geb_false a b : geb a b = false <-> a < b.
Proof. apply leb_false. Qed.

Lemma gtb_true a b : gtb a b = true <-> b < a.
Proof. unfold gtb. rewrite negb_true_iff. apply leb_false. Qed.

Lemma gtb_false a b : gtb a b = false <-> a <= b.
Proof. unfold gtb. rewrite negb_false_iff. apply Qle_bool_iff. Qed.

(** ** Bounding boxes *)

(** C6: [intersects] is symmetric: [a.intersects(b)] and [b.intersects(a)]
    are the same boolean, for all bounding boxes [a] and [b]. *)
Theorem intersects_symmetric (a b : BoundingBox.t) :
  BoundingBox.intersects a b = BoundingBox.intersects b a.
Proof.
  unfold BoundingBox.intersects, geb, leb. f_equal.
  destruct (Qle_bool (BoundingBox.right b) (BoundingBox.x a)),
    (Qle_bool (BoundingBox.right a) (BoundingBox.x b)),
    (Qle_bool (BoundingBox.bottom b) (BoundingBox.y a)),
    (Qle_bool (BoundingBox.bottom a) (BoundingBox.y b)); reflexivity.
Qed.

(** [setSize] with a negative argument breaks the invariant of a box that
    had it. *)
Lemma setSize_negative_breaks_invariant :
  bb_inv (BoundingBox.new 0 0 10 10) /\
  ~ bb_inv (BoundingBox.setSize (-1) 5 (BoundingBox.new 0 0 10 10)).
Proof.
  split.
  - split; vm_compute; discriminate.
  - intros [H _]. vm_compute in H. apply H. reflexivity.
Qed.

(** C10, amended: on a bounding box of non-negative width and height,
    [setPosition] and the position update of [Entity.updatePosition] leave
    the width and the height as they are, hence non-negative; [setSize]
    stores its two arguments unchecked, so the box it leaves has
    non-negative width and height exactly when the arguments are
    non-negative. *)
Theorem bounding_box_invariant (b : BoundingBox.t) :
  bb_inv b ->
  (forall x y,
     BoundingBox.width (BoundingBox.setPosition x y b)
       = BoundingBox.width b /\
     BoundingBox.height (BoundingBox.setPosition x y b)
       = BoundingBox.height b /\
     BoundingBox.x (BoundingBox.setPosition x y b) = x /\
     BoundingBox.y (BoundingBox.setPosition x y b) = y /\
     bb_inv (BoundingBox.setPosition x y b)) /\
  (forall dt e, Entity.bb e = b ->
     BoundingBox.width (Entity.bb (Entity.updatePosition dt e))
       = BoundingBox.width b /\
     BoundingBox.height (Entity.bb (Entity.updatePosition dt e))
       = BoundingBox.height b /\
     bb_inv (Entity.bb (Entity.updatePosition dt e))) /\
  (forall w h,
     BoundingBox.width (BoundingBox.setSize w h b) = w /\
     BoundingBox.height (BoundingBox.setSize w h b) = h /\
     (bb_inv (BoundingBox.setSize w h b) <-> 0 <= w /\ 0 <= h)).
Proof.
  intros Hb. split; [|split].
  - intros x y. split; [reflexivity|]. split; [reflexivity|].
    split; [reflexivity|]. split; [reflexivity|exact Hb].
  - intros dt e <-. repeat split; apply Hb.
  - intros w h. split; [reflexivity|]. split; [reflexivity|].
    unfold bb_inv. simpl. tauto.
Qed.

Lemma bounding_box_invariant_witness :
  BoundingBox.width (BoundingBox.setPosition 3 4 (BoundingBox.new 0 0 10 10))
    = BoundingBox.width (BoundingBox.new 0 0 10 10) /\
  BoundingBox.height (BoundingBox.setPosition 3 4 (BoundingBox.new 0 0 10 10))
    = BoundingBox.height (BoundingBox.new 0 0 10 10) /\
  BoundingBox.x (BoundingBox.setPosition 3 4 (BoundingBox.new 0 0 10 10)) = 3
  /\
  BoundingBox.y (BoundingBox.setPosition 3 4 (BoundingBox.new 0 0 10 10)) = 4
  /\
  bb_inv (BoundingBox.setPosition 3 4 (BoundingBox.new 0 0 10 10)).
Proof.
  refine (proj1 (bounding_box_invariant (BoundingBox.new 0 0 10 10) _) 3 4).
  split; vm_compute; discriminate.
Defined.

(** ** The turns of the [while] loop *)

(** What holds when the loop does not turn, and holds of a loop that
    turns once more when it holds of the rest, holds of every run that
    returns. *)
Lemma while_loop_elim
    (P : number -> Game.t -> number -> Game.t -> list number -> Prop) :
  (forall a g, a < DT -> P a g a g []) ->
  (forall a g a' g' u,
     DT <= a -> P (a - DT) (Game.update DT g) a' g' u ->
     P a g a' g' (DT :: u)) ->
  forall fuel a g a' g' u,
    while_loop fuel a g = Some (a', g', u) -> P a g a' g' u.
Proof.
  intros Hstop Hturn.
  induction fuel as [|fuel IH]; intros a g a' g' u; cbn [while_loop];
    destruct (geb a DT) eqn:E; try discriminate.
  - intros [= <- <- <-]. apply Hstop, geb_false, E.
  - destruct (while_loop fuel (a - DT) (Game.update DT g))
      as [[[a1 g1] u1]|] eqn:E1; [|discriminate].
    intros [= <- <- <-]. apply Hturn; [apply geb_true, E|].
    apply IH, E1.
  - intros [= <- <- <-]. apply Hstop, geb_false, E.
Qed.

(** ** Tiles *)

Lemma Game_update_tiles dt g : Game.tiles (Game.update dt g) = Game.tiles g.
Proof. reflexivity. Qed.

Lemma while_loop_frame fuel a g a' g' u :
  while_loop fuel a g = Some (a', g', u) ->
  Game.tiles g' = Game.tiles g /\ Game.entities g' = Game.entities g.
Proof.
  revert fuel a g a' g' u. apply while_loop_elim.
  - intros a g _. split; reflexivity.
  - intros a g a' g' u _ IH. exact IH.
Qed.

(** C9: a tile constructed at row [r] and column [c] has [x = c * 24] and
    [y = r * 24], [Tile.size] being 24; [Game.update] and the loop of
    [loop] leave the tiles as they are; and [render] makes a draw call, a
    [strokeRect] of the tile's square, if and only if the id is 1: the ids
    0 and 2 draw nothing. *)
Theorem tile_position_and_render (id r c : number) :
  let t := Tile.new id r c in
  Tile.size = 24 /\ Tile.x t = c * 24 /\ Tile.y t = r * 24 /\
  (forall dt g, Game.tiles (Game.update dt g) = Game.tiles g) /\
  (forall fuel a g,
     match while_loop fuel a g with
     | Some (_, g', _) => Game.tiles g' = Game.tiles g
     | None => True
     end) /\
  (forall ctx,
     ((exists call,
         Canvas.calls (Tile.render ctx t) = Canvas.calls ctx ++ [call])
      <-> id == 1) /\
     (id == 1 ->
      Tile.render ctx t =
        Canvas.strokeRect (c * 24) (r * 24) 24 24 ctx /\
      Canvas.calls (Tile.render ctx t) =
        Canvas.calls ctx ++ [Canvas.StrokeRect (c * 24) (r * 24) 24 24]) /\
     (~ id == 1 -> Tile.render ctx t = ctx) /\
     Tile.render ctx (Tile.new 0 r c) = ctx /\
     Tile.render ctx (Tile.new 2 r c) = ctx).
Proof.
  cbv zeta. do 3 (apply conj; [reflexivity|]).
  apply conj; [exact Game_update_tiles|].
  apply conj.
  { intros fuel a g.
    destruct (while_loop fuel a g) as [[[a' g'] u]|] eqn:E; [|exact I].
    apply while_loop_frame in E. apply E. }
  intros ctx.
  assert (Hyes : id == 1 ->
            Tile.render ctx (Tile.new id r c) =
            Canvas.strokeRect (c * 24) (r * 24) 24 24 ctx).
  { intros H. unfold Tile.render, Tile.new. cbn [Tile.id Tile.x Tile.y].
    rewrite (proj2 (Qeq_bool_iff id 1) H). reflexivity. }
  assert (Hno : ~ id == 1 -> Tile.render ctx (Tile.new id r c) = ctx).
  { intros H. unfold Tile.render, Tile.new. cbn [Tile.id Tile.x Tile.y].
    destruct (Qeq_bool id 1) eqn:E; [|reflexivity].
    destruct (H (proj1 (Qeq_bool_iff id 1) E)). }
  split; [|split; [|split; [exact Hno|split; reflexivity]]].
  - split.
    + intros [call Hcall].
      destruct (Qeq_dec id 1) as [H|H]; [exact H|].
      rewrite (Hno H) in Hcall.
      apply (f_equal length) in Hcall.
      rewrite length_app in Hcall. simpl in Hcall. lia.
    + intros H. rewrite (Hyes H). eexists. reflexivity.
  - intros H. rewrite (Hyes H). split; reflexivity.
Qed.

(** ** Entities *)

(** C7: with the methods of the base class, [update(dt)] is one step of
    Euler integration: it sets [bb.x] to [bb.x + velocity.x * dt] and
    [bb.y] to [bb.y + velocity.y * dt] and leaves the width, the height,
    the velocity, the colour and the [finished] flag as they were; the
    list of colliding entities is empty and [onEntityCollide] does
    nothing, so that [handleEvents] changes nothing. *)
Theorem entity_update_is_euler_step (dt : number) (e : Entity.t) :
  let e' := Entity.update dt e in
  BoundingBox.x (Entity.bb e') =
    BoundingBox.x (Entity.bb e) + Vector.x (Entity.velocity e) * dt /\
  BoundingBox.y (Entity.bb e') =
    BoundingBox.y (Entity.bb e) + Vector.y (Entity.velocity e) * dt /\
  BoundingBox.width (Entity.bb e') = BoundingBox.width (Entity.bb e) /\
  BoundingBox.height (Entity.bb e') = BoundingBox.height (Entity.bb e) /\
  Entity.velocity e' = Entity.velocity e /\
  Entity.colorString e' = Entity.colorString e /\
  Entity.finished e' = Entity.finished e /\
  Entity.getCollidingEntities e = [] /\
  (forall sender, Entity.onEntityCollide sender e = e) /\
  Entity.handleEvents e = e /\
  e' = Entity.updatePosition dt e.
Proof. cbv zeta. repeat split. Qed.

(** ** The heap under [Game.update] *)

Lemma update_entity_lookup_ne dt tiles (h : gmap loc Entity.t) (l l' : loc) :
  l <> l' -> Game.update_entity dt tiles h l' !! l = h !! l.
Proof.
  intros Hne. unfold Game.update_entity.
  destruct (alter (Entity.update dt) l' h !! l') as [o|];
    [destruct (gtb _ _)|]; rewrite ?lookup_alter_ne by congruence;
    reflexivity.
Qed.

Lemma update_entity_lookup_eq dt tiles (h : gmap loc Entity.t) (l : loc) e :
  h !! l = Some e ->
  Game.update_entity dt tiles h l !! l = Some (updated dt tiles e).
Proof.
  intros H. unfold Game.update_entity, updated.
  rewrite lookup_alter_eq, H. simpl.
  destruct (gtb _ _).
  - rewrite lookup_alter_eq, lookup_alter_eq, H. reflexivity.
  - rewrite lookup_alter_eq, H. reflexivity.
Qed.

Lemma foldl_update_entity_notin dt tiles (ls : list loc) :
  forall (h : gmap loc Entity.t) (l : loc),
  l ∉ ls -> foldl (Game.update_entity dt tiles) h ls !! l = h !! l.
Proof.
  induction ls as [|l' ls IH]; intros h l Hl; simpl; [reflexivity|].
  apply not_elem_of_cons in Hl as [Hne Hl].
  rewrite IH by exact Hl. apply update_entity_lookup_ne. exact Hne.
Qed.


Lemma updated_finished dt tiles e :
  Entity.finished e = true -> Entity.finished (updated dt tiles e) = true.
Proof.
  intros H. unfold updated. cbv zeta. destruct (gtb _ _); [reflexivity|].
  exact H.
Qed.

Lemma update_entity_dead dt tiles (h : gmap loc Entity.t) (l l' : loc) :
  dead h l -> dead (Game.update_entity dt tiles h l') l.
Proof.
  intros (e & He & Hf). destruct (decide (l = l')) as [<-|Hne].
  - exists (updated dt tiles e). split.
    + apply update_entity_lookup_eq. exact He.
    + apply updated_finished. exact Hf.
  - exists e. split; [|exact Hf].
    rewrite update_entity_lookup_ne by exact Hne. exact He.
Qed.

Lemma Game_update_dead dt g l :
  dead (Game.heap g) l -> dead (Game.heap (Game.update dt g)) l.
Proof.
  unfold Game.update. simpl. generalize (Game.heap g) as h.
  induction (Game.entities g) as [|l' ls IH]; intros h H; simpl;
    [exact H|].
  apply IH. apply update_entity_dead. exact H.
Qed.

Lemma while_loop_dead l fuel a g a' g' u :
  while_loop fuel a g = Some (a', g', u) ->
  dead (Game.heap g) l -> dead (Game.heap g') l.
Proof.
  revert fuel a g a' g' u.
  apply (while_loop_elim
           (fun a g a' g' u => dead (Game.heap g) l -> dead (Game.heap g') l)).
  - intros a g _ H. exact H.
  - intros a g a' g' u _ IH H. apply IH, Game_update_dead, H.
Qed.

Lemma loop_dead render l fuel t ctx g gl f :
  loop render fuel t ctx g gl = Some f ->
  dead (Game.heap g) l -> dead (Game.heap (frame_game f)) l.
Proof.
  unfold loop.
  destruct (while_loop fuel _ g) as [[[a1 g1] u1]|] eqn:E; [|discriminate].
  intros [= <-] H. simpl. apply (while_loop_dead _ _ _ _ _ _ _ E H).
Qed.

Lemma frames_dead render l fuel ts : forall ctx g gl f,
  frames render fuel ts ctx g gl = Some f ->
  dead (Game.heap g) l -> dead (Game.heap (frame_game f)) l.
Proof.
  induction ts as [|t ts IH]; intros ctx g gl f; simpl.
  - intros [= <-] H. exact H.
  - destruct (loop render fuel t ctx g gl) as [f1|] eqn:E1; [|discriminate].
    destruct (frames render fuel ts _ _ _) as [f2|] eqn:E2; [|discriminate].
    intros [= <-] H. simpl. apply (IH _ _ _ _ E2).
    apply (loop_dead _ _ _ _ _ _ _ _ E1 H).
Qed.

(** ** The grid that [main] builds *)

Lemma build_row_columns (r : nat) (mrow : list number) :
  forall (rest pre : list number) (trow : list Tile.t)
         (tiles : list (list Tile.t)),
  mrow = pre ++ rest ->
  tiles !! r = Some trow ->
  for_each (fun c tiles =>
              match mrow !! c with
              | Some id => push_at r (Tile.new id (of_nat r) (of_nat c)) tiles
              | None => None
              end) (seq (length pre) (length rest)) tiles
  = Some (<[r := trow ++ imap (fun c id =>
                     Tile.new id (of_nat r) (of_nat (length pre + c))) rest]>
            tiles).
Proof.
  induction rest as [|id rest IH]; intros pre trow tiles Hm Hr; simpl.
  - rewrite app_nil_r, list_insert_id by exact Hr. reflexivity.
  - assert (Hid : mrow !! length pre = Some id).
    { rewrite Hm. apply list_lookup_middle. reflexivity. }
    rewrite Hid. unfold push_at at 1. rewrite Hr.
    assert (Hlen : (r < length tiles)%nat) by (eapply lookup_lt_Some; eauto).
    replace (S (length pre)) with (length (pre ++ [id]))
      by (rewrite length_app; simpl; lia).
    rewrite (IH (pre ++ [id])
               (trow ++ [Tile.new id (of_nat r) (of_nat (length pre))])).
    + rewrite list_insert_insert_eq. f_equal. f_equal.
      rewrite <- app_assoc. f_equal. simpl. rewrite Nat.add_0_r. f_equal.
      apply imap_ext. intros c x _. simpl.
      rewrite length_app. simpl. do 2 f_equal. lia.
    + rewrite Hm, <- app_assoc. reflexivity.
    + apply list_lookup_insert_eq. exact Hlen.
Qed.

Lemma build_row_spec (map : list (list number)) (r : nat)
    (mrow : list number) (done : list (list Tile.t)) :
  map !! r = Some mrow -> length done = r ->
  build_row map r (done ++ [[]]) = Some (done ++ [tile_row r mrow] ++ [[]]).
Proof.
  intros Hm Hlen. unfold build_row. rewrite Hm.
  assert (Hrow : (done ++ [[]]) !! r = Some (@nil Tile.t)).
  { rewrite <- Hlen. apply list_lookup_middle. reflexivity. }
  pose proof (build_row_columns r mrow mrow [] [] (done ++ [[]])
                eq_refl Hrow) as H.
  cbn [length app Nat.add] in H. rewrite H.
  f_equal. rewrite <- Hlen.
  replace (length done) with (length done + 0)%nat at 1 by lia.
  rewrite insert_app_r. simpl. rewrite <- app_assoc. reflexivity.
Qed.

Lemma build_rows_spec (map : list (list number)) :
  forall (rest pre : list (list number)) (done : list (list Tile.t)),
  map = pre ++ rest -> length done = length pre ->
  for_each (build_row map) (seq (length pre) (length rest)) (done ++ [[]])
  = Some (done ++ imap (fun r => tile_row (length pre + r)) rest ++ [[]]).
Proof.
  induction rest as [|mrow rest IH]; intros pre done Hm Hlen; simpl.
  - reflexivity.
  - rewrite (build_row_spec map (length pre) mrow done).
    + replace (S (length pre)) with (length (pre ++ [mrow]))
        by (rewrite length_app; simpl; lia).
      replace (done ++ [tile_row (length pre) mrow] ++ [[]])
        with ((done ++ [tile_row (length pre) mrow]) ++ [[]])
        by (rewrite <- app_assoc; reflexivity).
      rewrite (IH (pre ++ [mrow])).
      * f_equal. rewrite <- app_assoc. f_equal. simpl.
        rewrite Nat.add_0_r. f_equal. f_equal.
        apply imap_ext. intros i x _. simpl.
        rewrite length_app. simpl. f_equal. lia.
      * rewrite Hm, <- app_assoc. reflexivity.
      * rewrite !length_app. simpl. lia.
    + rewrite Hm. apply list_lookup_middle. reflexivity.
    + exact Hlen.
Qed.

(** The two loops of [main] never fail, and build the grid of the map
    followed by one empty row. *)
Lemma build_tiles_spec (map : list (list number)) :
  build_tiles map = Some (tile_grid map ++ [[]]).
Proof.
  unfold build_tiles.
  exact (build_rows_spec map map [] [] eq_refl eq_refl).
Qed.

Lemma tile_grid_lookup (map : list (list number)) (r c : nat) :
  (tile_grid map ++ [[]]) !! r ≫= (.!! c)
  = (fun id => Tile.new id (of_nat r) (of_nat c)) <$> (map !! r ≫= (.!! c)).
Proof.
  unfold tile_grid.
  destruct (map !! r) as [mrow|] eqn:E.
  - rewrite lookup_app_l
      by (rewrite length_imap; eapply lookup_lt_Some; eauto).
    rewrite list_lookup_imap, E. simpl.
    unfold tile_row. rewrite list_lookup_imap. reflexivity.
  - simpl. apply lookup_ge_None in E.
    rewrite lookup_app_r by (rewrite length_imap; exact E).
    rewrite length_imap.
    destruct (r - length map)%nat as [|k]; simpl; [|reflexivity].
    reflexivity.
Qed.

(** C4: the two loops of [main] build, from a map, a grid of one row more
    than the map, the last row being empty, so that the line below which
    [Game.update] lets an entity die is [(map.length + 1) * 24] and not
    [map.length * 24]; the tile at row [r] and column [c] of the grid has
    the id [map[r][c]], the row [r] and the column [c].  For the map of
    [main], of 42 rows, the line is at 1032. *)
Theorem grid_has_trailing_empty_row (m : list (list number)) :
  exists tiles,
    build_tiles m = Some tiles /\
    length tiles = (length m + 1)%nat /\
    last tiles = Some [] /\
    Game.bottom tiles == (of_nat (length m) + 1) * 24 /\
    ~ Game.bottom tiles == of_nat (length m) * 24 /\
    (forall r c id,
       m !! r ≫= (.!! c) = Some id ->
       exists t,
         tiles !! r ≫= (.!! c) = Some t /\
         Tile.id t = id /\ Tile.row t = of_nat r /\ Tile.col t = of_nat c) /\
    (m = map ->
     main = Some (Game.new tiles [] ∅) /\
     length tiles = 43%nat /\ Game.bottom tiles == 1032).
Proof.
  exists (tile_grid m ++ [[]]).
  assert (Hlen : length (tile_grid m ++ [[]]) = (length m + 1)%nat).
  { unfold tile_grid. rewrite length_app, length_imap. reflexivity. }
  assert (Hbot : Game.bottom (tile_grid m ++ [[]])
                 == (of_nat (length m) + 1) * 24).
  { unfold Game.bottom, Tile.size, of_nat. rewrite Hlen.
    rewrite Nat2Z.inj_add, inject_Z_plus. reflexivity. }
  split; [apply build_tiles_spec|].
  split; [exact Hlen|].
  split; [apply last_snoc|].
  split; [exact Hbot|].
  split; [rewrite Hbot; lra|].
  split.
  - intros r c id H. rewrite tile_grid_lookup, H. simpl.
    eexists. repeat split.
  - intros ->. split; [|split].
    + unfold main. rewrite build_tiles_spec. reflexivity.
    + rewrite Hlen. reflexivity.
    + rewrite Hbot. reflexivity.
Qed.

(** ** The dead state *)

(** C8: the dead state is one way.  An entity whose [finished] flag is set
    keeps it set through [Entity.update], [Entity.die], [Game.update] and
    any number of frames of [loop]; [die] sets the flag and changes nothing
    else of the entity, and the array of entities is the same after
    [Game.update] and after the frames. *)
Theorem dead_is_one_way (g : Game.t) (l : loc) (e : Entity.t) :
  Game.heap g !! l = Some e ->
  Entity.finished e = true ->
  (forall dt, Entity.finished (Entity.update dt e) = true) /\
  Entity.finished (Entity.die e) = true /\
  (forall dt, dead (Game.heap (Game.update dt g)) l) /\
  (forall render fuel ts ctx gl f,
     frames render fuel ts ctx g gl = Some f ->
     dead (Game.heap (frame_game f)) l) /\
  (forall o : Entity.t,
     Entity.finished (Entity.die o) = true /\
     Entity.bb (Entity.die o) = Entity.bb o /\
     Entity.velocity (Entity.die o) = Entity.velocity o /\
     Entity.colorString (Entity.die o) = Entity.colorString o) /\
  (forall dt, Game.entities (Game.update dt g) = Game.entities g).
Proof.
  intros Hl Hf.
  assert (Hd : dead (Game.heap g) l) by (exists e; split; assumption).
  split; [intros dt; exact Hf|].
  split; [reflexivity|].
  split; [intros dt; apply Game_update_dead; exact Hd|].
  split.
  { intros render fuel ts ctx gl f H. apply (frames_dead _ _ _ _ _ _ _ _ H Hd). }
  split; [intros o; repeat split|].
  intros dt. reflexivity.
Qed.

Lemma dead_is_one_way_witness :
  dead (Game.heap (Game.update DT (Game.update DT two_entities))) 0%nat.
Proof.
  destruct (dead_is_one_way (Game.update DT two_entities) 0%nat
              (updated DT (Game.tiles two_entities)
                 (Entity.new "red" (BoundingBox.new 0 100 5 5)
                             (Vector.new 0 48))))
    as (_ & _ & H & _).
  - vm_compute. reflexivity.
  - vm_compute. reflexivity.
  - apply H.
Defined.

(** ** More on [Game.update] *)

Lemma update_entity_lookup dt tiles (h : gmap loc Entity.t) (l : loc) :
  Game.update_entity dt tiles h l !! l = updated dt tiles <$> h !! l.
Proof.
  destruct (h !! l) as [e|] eqn:E.
  - apply update_entity_lookup_eq. exact E.
  - unfold Game.update_entity. rewrite lookup_alter_eq, E. simpl.
    rewrite lookup_alter_eq, E. reflexivity.
Qed.

Lemma foldl_update_entity_lookup dt tiles (l : loc) (ls : list loc) :
  forall h : gmap loc Entity.t,
  foldl (Game.update_entity dt tiles) h ls !! l
  = Nat.iter (occurrences l ls) (updated dt tiles) <$> h !! l.
Proof.
  unfold occurrences.
  induction ls as [|l' ls IH]; intros h; simpl foldl.
  - simpl. destruct (h !! l); reflexivity.
  - rewrite IH. destruct (decide (l' = l)) as [->|Hne].
    + rewrite update_entity_lookup, count_occ_cons_eq by reflexivity.
      destruct (h !! l) as [e|]; simpl; [|reflexivity].
      rewrite <- Nat.iter_succ_r. reflexivity.
    + rewrite update_entity_lookup_ne by congruence.
      rewrite count_occ_cons_neq by exact Hne. reflexivity.
Qed.

Lemma updated_bb dt tiles e :
  Entity.bb (updated dt tiles e) = Entity.bb (Entity.update dt e) /\
  Entity.velocity (updated dt tiles e) = Entity.velocity e /\
  Entity.colorString (updated dt tiles e) = Entity.colorString e /\
  Entity.finished (updated dt tiles e)
    = Entity.finished e
      || gtb (BoundingBox.y (Entity.bb (Entity.update dt e)))
             (Game.bottom tiles).
Proof.
  unfold updated. cbv zeta. destruct (gtb _ _).
  - repeat apply conj; try reflexivity. simpl. rewrite orb_true_r.
    reflexivity.
  - repeat apply conj; try reflexivity. simpl. rewrite orb_false_r.
    reflexivity.
Qed.

Lemma occurrences_elem_of (l : loc) (ls : list loc) :
  l ∈ ls -> exists m, occurrences l ls = S m.
Proof.
  intros H. apply list_elem_of_In in H.
  apply (count_occ_In Nat.eq_dec) in H. unfold occurrences.
  destruct (count_occ Nat.eq_dec ls l) as [|m]; [lia|].
  exists m. reflexivity.
Qed.

Lemma updated_past_the_line dt tiles e :
  Game.bottom tiles < BoundingBox.y (Entity.bb (updated dt tiles e)) ->
  Entity.finished (updated dt tiles e) = true.
Proof.
  destruct (updated_bb dt tiles e) as (-> & _ & _ & ->).
  intros H. apply gtb_true in H. rewrite H. apply orb_true_r.
Qed.

(** In a game whose array lists an object twice, [Game.update(DT)] updates
    the object twice: the entity, alive at [y = 74] above a line at 72, is
    at 73 after its first update, past the line, and is flagged; it is at
    72 after the second, which does not exceed the line, and is
    finished. *)
Lemma game_update_culls_an_entity_not_past_the_line :
  exists e e',
    Game.heap listed_twice !! 0%nat = Some e /\
    Entity.finished e = false /\
    Game.heap (Game.update DT listed_twice) !! 0%nat = Some e' /\
    BoundingBox.y (Entity.bb e') == 72 /\
    BoundingBox.y (Entity.bb e')
      <= of_nat (length (Game.tiles listed_twice)) * 24 /\
    Entity.finished e' = true.
Proof.
  eexists. eexists. split; [reflexivity|]. split; [reflexivity|].
  split; [vm_compute; reflexivity|].
  split; [reflexivity|]. split; [|reflexivity].
  vm_compute. discriminate.
Qed.

(** C3, amended: when [Game.update(dt)] returns, every entity of the
    collection whose [bb.y] exceeds [tiles.length * 24] has [finished]
    set, and the collection holds the same objects as before.  An entity
    that the array lists once has the bounding box of its own [update],
    and, when that [bb.y] does not exceed [tiles.length * 24], the flag it
    had before the call, so that one that was alive stays alive.  (An
    entity that the array lists more than once is updated once for each
    listing, and is finished when it was past the line after any of
    them.) *)
Theorem game_update_culls (dt : number) (g : Game.t) (l : loc)
    (e : Entity.t) :
  l ∈ Game.entities g ->
  Game.heap g !! l = Some e ->
  let o := Entity.update dt e in
  let line := of_nat (length (Game.tiles g)) * 24 in
  exists e',
    Game.heap (Game.update dt g) !! l = Some e' /\
    (line < BoundingBox.y (Entity.bb e') -> Entity.finished e' = true) /\
    (occurrences l (Game.entities g) = 1%nat ->
     Entity.bb e' = Entity.bb o /\
     (BoundingBox.y (Entity.bb o) <= line ->
      Entity.finished e' = Entity.finished e)) /\
    Game.entities (Game.update dt g) = Game.entities g.
Proof.
  intros Hin Hl o line.
  pose proof (foldl_update_entity_lookup dt (Game.tiles g) l
                (Game.entities g) (Game.heap g)) as H.
  rewrite Hl in H. cbn [fmap option_fmap option_map] in H.
  eexists. split; [exact H|].
  split; [|split; [|reflexivity]].
  - destruct (occurrences_elem_of l (Game.entities g) Hin) as [m ->].
    cbn [Nat.iter nat_rect]. apply updated_past_the_line.
  - intros ->. cbn [Nat.iter nat_rect].
    destruct (updated_bb dt (Game.tiles g) e) as (Hbb & _ & _ & Hf).
    split; [exact Hbb|].
    intros Hy. rewrite Hf.
    change (Game.bottom (Game.tiles g)) with line.
    apply gtb_false in Hy. fold o. rewrite Hy. apply orb_false_r.
Qed.

Lemma game_update_culls_witness :
  exists e',
    Game.heap (Game.update DT two_entities) !! 1%nat = Some e' /\
    (of_nat 3 * 24 < BoundingBox.y (Entity.bb e') ->
     Entity.finished e' = true) /\
    (occurrences 1%nat [0%nat; 1%nat] = 1%nat ->
     Entity.bb e' =
       Entity.bb (Entity.update DT
                    (Entity.new "blue" (BoundingBox.new 0 10 5 5)
                                (Vector.new 0 48))) /\
     (BoundingBox.y
        (Entity.bb (Entity.update DT
                      (Entity.new "blue" (BoundingBox.new 0 10 5 5)
                                  (Vector.new 0 48))))
      <= of_nat 3 * 24 ->
      Entity.finished e' = false)) /\
    Game.entities (Game.update DT two_entities) = [0%nat; 1%nat].
Proof.
  apply (game_update_culls DT two_entities 1%nat
           (Entity.new "blue" (BoundingBox.new 0 10 5 5) (Vector.new 0 48))).
  - compute_done.
  - reflexivity.
Defined.

(** X7: [Game.update] moves and culls an object once for each time the
    array refers to it: an object the array refers to twice makes two
    steps in one call, an object of the heap the array does not refer to
    is left as it is, and no object is added to the heap or taken from
    it. *)
Theorem game_update_once_per_reference (dt : number) (g : Game.t)
    (l : loc) :
  Game.heap (Game.update dt g) !! l
    = Nat.iter (occurrences l (Game.entities g))
               (updated dt (Game.tiles g)) <$> Game.heap g !! l /\
  (l ∉ Game.entities g ->
   Game.heap (Game.update dt g) !! l = Game.heap g !! l) /\
  (is_Some (Game.heap (Game.update dt g) !! l)
   <-> is_Some (Game.heap g !! l)) /\
  (forall e, Game.heap g !! l = Some e ->
     Game.heap (Game.update dt (Game.new (Game.tiles g) [l; l] (Game.heap g)))
       !! l
     = Some (updated dt (Game.tiles g) (updated dt (Game.tiles g) e))).
Proof.
  assert (H : Game.heap (Game.update dt g) !! l
              = Nat.iter (occurrences l (Game.entities g))
                         (updated dt (Game.tiles g)) <$> Game.heap g !! l)
    by apply foldl_update_entity_lookup.
  split; [exact H|]. split; [|split].
  - intros Hl. apply foldl_update_entity_notin. exact Hl.
  - rewrite H. apply fmap_is_Some.
  - intros e He. unfold Game.update, Game.new.
    cbn [Game.tiles Game.entities Game.heap].
    rewrite foldl_update_entity_lookup, He. unfold occurrences. simpl.
    destruct (Nat.eq_dec l l); [reflexivity|contradiction].
Qed.

(** *** Updates in a row *)












(** ** Rendering *)

Lemma drawn_nil ctx : drawn [] ctx = ctx.
Proof. destruct ctx. unfold drawn. simpl. rewrite app_nil_r. reflexivity. Qed.

Lemma drawn_app cs cs' ctx : drawn cs' (drawn cs ctx) = drawn (cs ++ cs') ctx.
Proof. unfold drawn. simpl. rewrite app_assoc. reflexivity. Qed.

Lemma Tile_render_drawn ctx t : Tile.render ctx t = drawn (tile_calls t) ctx.
Proof.
  unfold Tile.render, tile_calls.
  destruct (Qeq_bool (Tile.id t) 1); [reflexivity|].
  symmetry. apply drawn_nil.
Qed.

Lemma row_render_drawn (row : list Tile.t) :
  forall ctx, foldl Tile.render ctx row = drawn (row ≫= tile_calls) ctx.
Proof.
  induction row as [|t row IH]; intros ctx; simpl.
  - symmetry. apply drawn_nil.
  - rewrite IH, Tile_render_drawn, drawn_app. reflexivity.
Qed.

Lemma tiles_render_drawn (tiles : list (list Tile.t)) :
  forall ctx,
  foldl (fun ctx row => foldl Tile.render ctx row) ctx tiles
  = drawn (wall_calls tiles) ctx.
Proof.
  unfold wall_calls.
  induction tiles as [|row tiles IH]; intros ctx; simpl.
  - symmetry. apply drawn_nil.
  - rewrite IH, row_render_drawn, drawn_app. reflexivity.
Qed.

Lemma wall_calls_length (tiles : list (list Tile.t)) :
  length (wall_calls tiles)
  = length (filter (fun t => Qeq_bool (Tile.id t) 1 = true) (concat tiles)).
Proof.
  unfold wall_calls.
  induction tiles as [|row tiles IH]; [reflexivity|].
  rewrite bind_cons. change (concat (row :: tiles)) with (row ++ concat tiles).
  rewrite length_app, filter_app, length_app, IH. f_equal.
  clear IH. induction row as [|t row IH]; [reflexivity|].
  rewrite bind_cons, length_app, IH, filter_cons. unfold tile_calls.
  destruct (Qeq_bool (Tile.id t) 1) eqn:E.
  - rewrite decide_True by reflexivity. reflexivity.
  - rewrite decide_False by discriminate. reflexivity.
Qed.

(** X10: [Game.render] draws the tiles before any entity, whatever the
    [render] of the entities does: it first adds to the calls made so far
    one [strokeRect] for each tile of id 1, in the order of the rows and of
    the columns, without a change to the styles of the context, and hands
    the result to the entities in the order of the array; a game without
    entities draws its walls and nothing else. *)
Theorem render_draws_walls_first
    (render : Entity.t -> Canvas.t -> Canvas.t) (ctx : Canvas.t)
    (g : Game.t) :
  let walls := drawn (wall_calls (Game.tiles g)) ctx in
  Canvas.calls walls = Canvas.calls ctx ++ wall_calls (Game.tiles g) /\
  length (wall_calls (Game.tiles g))
    = length (filter (fun t => Qeq_bool (Tile.id t) 1 = true)
                     (concat (Game.tiles g))) /\
  Canvas.fillStyle walls = Canvas.fillStyle ctx /\
  Canvas.strokeStyle walls = Canvas.strokeStyle ctx /\
  Canvas.lineWidth walls = Canvas.lineWidth ctx /\
  Game.render render ctx g
    = foldl (fun ctx e =>
               match Game.heap g !! e with
               | Some o => render o ctx
               | None => ctx
               end) walls (Game.entities g) /\
  (Game.entities g = [] -> Game.render render ctx g = walls).
Proof.
  cbv zeta. split; [reflexivity|].
  split; [apply wall_calls_length|].
  do 3 (split; [reflexivity|]).
  assert (H : Game.render render ctx g
              = foldl (fun ctx e =>
                         match Game.heap g !! e with
                         | Some o => render o ctx
                         | None => ctx
                         end) (drawn (wall_calls (Game.tiles g)) ctx)
                      (Game.entities g)).
  { unfold Game.render. rewrite tiles_render_drawn. reflexivity. }
  split; [exact H|].
  intros Hnil. rewrite H, Hnil. reflexivity.
Qed.


(** * Properties of the binary64 program *)

(** ** The order of binary64 numbers *)

Section Rank.
Local Open Scope Z_scope.

Lemma digits2_pos_bounds (m : positive) :
  2 ^ (Zpos (digits2_pos m) - 1) <= Zpos m < 2 ^ Zpos (digits2_pos m).
Proof.
  induction m as [m IH|m IH|]; cbn [digits2_pos].
  - rewrite Pos2Z.inj_succ.
    replace (Z.succ (Zpos (digits2_pos m)) - 1)
      with (Z.succ (Zpos (digits2_pos m) - 1)) by lia.
    rewrite !Z.pow_succ_r by lia. lia.
  - rewrite Pos2Z.inj_succ.
    replace (Z.succ (Zpos (digits2_pos m)) - 1)
      with (Z.succ (Zpos (digits2_pos m) - 1)) by lia.
    rewrite !Z.pow_succ_r by lia. lia.
  - simpl. lia.
Qed.

(** What validity says of a finite binary64 number. *)
Lemma bounded_inv m e :
  bounded prec emax m e = true ->
  -1074 <= e <= 971 /\
  Zpos (digits2_pos m) <= 53 /\
  (-1074 < e -> Zpos (digits2_pos m) = 53).
Proof.
  unfold bounded, canonical_mantissa, fexp, SpecFloat.emin, prec, emax.
  intros H. apply andb_prop in H as [H1 H2].
  apply Z.eqb_eq in H1. apply Z.leb_le in H2. lia.
Qed.

Lemma finite_rank_bounds m e :
  bounded prec emax m e = true ->
  0 < Zpos m * 2 ^ (e + 1074) < 2 ^ 2200.
Proof.
  intros H. apply bounded_inv in H as (He & Hd & _).
  pose proof (digits2_pos_bounds m) as [_ Hm].
  assert (0 < 2 ^ (e + 1074)) by (apply Z.pow_pos_nonneg; lia).
  split; [lia|].
  assert (Zpos m < 2 ^ 53).
  { eapply Z.lt_le_trans; [exact Hm|]. apply Z.pow_le_mono_r; lia. }
  assert (2 ^ (e + 1074) <= 2 ^ 2045) by (apply Z.pow_le_mono_r; lia).
  assert (Zpos m * 2 ^ (e + 1074) < 2 ^ 53 * 2 ^ (e + 1074))
    by (apply Z.mul_lt_mono_pos_r; lia).
  assert (2 ^ 53 * 2 ^ (e + 1074) <= 2 ^ 53 * 2 ^ 2045)
    by (apply Z.mul_le_mono_nonneg_l; lia).
  assert (2 ^ 53 * 2 ^ 2045 <= 2 ^ 2200).
  { rewrite <- Z.pow_add_r by lia. apply Z.pow_le_mono_r; lia. }
  lia.
Qed.

(** Numbers of a smaller exponent are smaller. *)
Lemma finite_rank_lt m1 e1 m2 e2 :
  bounded prec emax m1 e1 = true -> bounded prec emax m2 e2 = true ->
  e1 < e2 ->
  Zpos m1 * 2 ^ (e1 + 1074) < Zpos m2 * 2 ^ (e2 + 1074).
Proof.
  intros H1 H2 He.
  apply bounded_inv in H1 as (He1 & Hd1 & _).
  apply bounded_inv in H2 as (He2 & _ & Hd2).
  specialize (Hd2 ltac:(lia)).
  pose proof (digits2_pos_bounds m1) as [_ Hm1].
  pose proof (digits2_pos_bounds m2) as [Hm2 _].
  rewrite Hd2 in Hm2.
  assert (Zpos m1 < 2 ^ 53).
  { eapply Z.lt_le_trans; [exact Hm1|]. apply Z.pow_le_mono_r; lia. }
  assert (0 < 2 ^ (e1 + 1074)) by (apply Z.pow_pos_nonneg; lia).
  assert (E : 2 ^ (e2 + 1074) = 2 ^ (e2 - e1 - 1) * (2 * 2 ^ (e1 + 1074))).
  { rewrite <- Z.pow_succ_r, <- Z.pow_add_r by lia. f_equal. lia. }
  assert (1 <= 2 ^ (e2 - e1 - 1)).
  { change 1 with (2 ^ 0). apply Z.pow_le_mono_r; lia. }
  rewrite E. simpl in Hm2. nia.
Qed.

Lemma SFcompare_rank (f1 f2 : spec_float) :
  valid_binary f1 = true -> valid_binary f2 = true ->
  f1 <> S754_nan -> f2 <> S754_nan ->
  SFcompare f1 f2 = Some (SFrank f1 ?= SFrank f2).
Proof.
  assert (Hbig : 0 < 2 ^ 2200) by (apply Z.pow_pos_nonneg; lia).
  destruct f1 as [s1|s1| |s1 m1 e1], f2 as [s2|s2| |s2 m2 e2];
    cbn [valid_binary SFcompare SFrank]; intros V1 V2 N1 N2;
    try congruence;
    try pose proof (finite_rank_bounds _ _ V1);
    try pose proof (finite_rank_bounds _ _ V2).
  all: try (f_equal; symmetry; destruct s1, s2;
            first [ apply Z.compare_eq_iff; lia
                  | apply Z.compare_lt_iff; lia
                  | apply Z.compare_gt_iff; lia ]).
  all: try (f_equal; symmetry; destruct s1;
            first [ apply Z.compare_eq_iff; lia
                  | apply Z.compare_lt_iff; lia
                  | apply Z.compare_gt_iff; lia ]).
  all: try (f_equal; symmetry; destruct s2;
            first [ apply Z.compare_eq_iff; lia
                  | apply Z.compare_lt_iff; lia
                  | apply Z.compare_gt_iff; lia ]).
  f_equal. destruct s1, s2.
  - destruct (Z.compare_spec e1 e2) as [->|He|He].
    + rewrite Z.compare_opp, <- Zmult_compare_compat_r by lia.
      change (Zpos m2 ?= Zpos m1) with (Pos.compare m2 m1).
      symmetry. apply Pos.compare_antisym.
    + symmetry. apply Z.compare_gt_iff.
      pose proof (finite_rank_lt _ _ _ _ V1 V2 He). lia.
    + symmetry. apply Z.compare_lt_iff.
      pose proof (finite_rank_lt _ _ _ _ V2 V1 He). lia.
  - symmetry. apply Z.compare_lt_iff. lia.
  - symmetry. apply Z.compare_gt_iff. lia.
  - destruct (Z.compare_spec e1 e2) as [->|He|He].
    + rewrite <- Zmult_compare_compat_r by lia. reflexivity.
    + symmetry. apply Z.compare_lt_iff.
      apply (finite_rank_lt _ _ _ _ V1 V2 He).
    + symmetry. apply Z.compare_gt_iff.
      apply (finite_rank_lt _ _ _ _ V2 V1 He).
Qed.

Lemma is_nan_Prim2SF x : is_nan x = false -> Prim2SF x <> S754_nan.
Proof.
  intros H. unfold Prim2SF. rewrite H.
  destruct (is_zero x); [discriminate|].
  destruct (is_infinity x); [discriminate|].
  destruct (Z.frexp x) as [r e].
  destruct (shr_fexp _ _ _ _ _) as [shr e'].
  destruct (shr_m shr); discriminate.
Qed.

Lemma compare_rank x y :
  is_nan x = false -> is_nan y = false ->
  SFcompare (Prim2SF x) (Prim2SF y) = Some (rank x ?= rank y).
Proof.
  intros Hx Hy. apply SFcompare_rank;
    auto using Prim2SF_valid, is_nan_Prim2SF.
Qed.

Lemma ltb_rank x y :
  is_nan x = false -> is_nan y = false ->
  PrimFloat.ltb x y = (rank x <? rank y).
Proof.
  intros Hx Hy. rewrite ltb_spec. unfold SFltb.
  rewrite (compare_rank x y Hx Hy). unfold Z.ltb.
  destruct (rank x ?= rank y); reflexivity.
Qed.

Lemma leb_rank x y :
  is_nan x = false -> is_nan y = false ->
  PrimFloat.leb x y = (rank x <=? rank y).
Proof.
  intros Hx Hy. rewrite leb_spec. unfold SFleb.
  rewrite (compare_rank x y Hx Hy). unfold Z.leb.
  destruct (rank x ?= rank y); reflexivity.
Qed.

Lemma Prim2SF_nan x : is_nan x = true -> Prim2SF x = S754_nan.
Proof. intros H. unfold Prim2SF. rewrite H. reflexivity. Qed.

Lemma leb_not_nan x y : PrimFloat.leb x y = true -> is_nan x = false /\ is_nan y = false.
Proof.
  rewrite leb_spec. unfold SFleb. intros H.
  destruct (is_nan x) eqn:Hx.
  { rewrite (Prim2SF_nan x Hx) in H. discriminate. }
  destruct (is_nan y) eqn:Hy.
  { rewrite (Prim2SF_nan y Hy) in H. destruct (Prim2SF x); discriminate. }
  split; reflexivity.
Qed.

Lemma ltb_not_nan x y : PrimFloat.ltb x y = true -> is_nan x = false /\ is_nan y = false.
Proof.
  rewrite ltb_spec. unfold SFltb. intros H.
  destruct (is_nan x) eqn:Hx.
  { rewrite (Prim2SF_nan x Hx) in H. discriminate. }
  destruct (is_nan y) eqn:Hy.
  { rewrite (Prim2SF_nan y Hy) in H. destruct (Prim2SF x); discriminate. }
  split; reflexivity.
Qed.


(** ** Signs of results *)

Lemma shr_1_nonneg mrs : 0 <= shr_m mrs -> 0 <= shr_m (shr_1 mrs).
Proof.
  destruct mrs as [[|[p|p|]|p] r s]; cbn [shr_1 shr_m]; lia.
Qed.

Lemma iter_pos_shr_1_nonneg (p : positive) :
  forall mrs, 0 <= shr_m mrs -> 0 <= shr_m (SpecFloat.iter_pos shr_1 p mrs).
Proof.
  induction p as [p IH|p IH|]; intros mrs H; cbn [SpecFloat.iter_pos].
  - apply IH, IH, shr_1_nonneg, H.
  - apply IH, IH, H.
  - apply shr_1_nonneg, H.
Qed.

Lemma shr_fexp_nonneg m e l :
  0 <= m -> 0 <= shr_m (fst (shr_fexp prec emax m e l)).
Proof.
  intros H. unfold shr_fexp, shr.
  assert (H0 : 0 <= shr_m (shr_record_of_loc m l))
    by (destruct l as [|[| |]]; exact H).
  destruct (fexp prec emax (Zdigits2 m + e) - e) as [|p|p]; cbn [fst];
    [exact H0| |exact H0].
  apply iter_pos_shr_1_nonneg, H0.
Qed.

Lemma round_nearest_even_nonneg m l : 0 <= m -> 0 <= round_nearest_even m l.
Proof.
  intros H. unfold round_nearest_even.
  destruct l as [|[| |]]; [lia| |lia|lia].
  destruct (Z.even m); lia.
Qed.

Lemma binary_round_aux_nonneg m e l :
  0 <= m -> SFnonneg (binary_round_aux prec emax false m e l).
Proof.
  intros H. unfold binary_round_aux.
  pose proof (shr_fexp_nonneg m e l H) as H1.
  destruct (shr_fexp prec emax m e l) as [mrs' e']. cbn [fst] in H1.
  pose proof (shr_fexp_nonneg _ e' loc_Exact
                (round_nearest_even_nonneg _ (loc_of_shr_record mrs') H1))
    as H2.
  destruct (shr_fexp prec emax _ e' loc_Exact) as [mrs'' e''].
  cbn [fst] in H2.
  destruct (shr_m mrs'') as [|p|p]; [exact I| |lia].
  destruct (e'' <=? emax - prec); exact I.
Qed.

Lemma binary_normalize_nonneg m e :
  0 <= m -> SFnonneg (binary_normalize prec emax m e false).
Proof.
  intros H. destruct m as [|p|p]; [exact I| |lia].
  cbn [binary_normalize]. unfold binary_round.
  destruct (shl_align p e _) as [mz ez].
  apply binary_round_aux_nonneg. lia.
Qed.


Lemma iter_xO (d m : positive) : Zpos (Pos.iter xO m d) = Zpos m * 2 ^ Zpos d.
Proof.
  induction d as [|d IH] using Pos.peano_ind.
  - simpl. lia.
  - rewrite Pos.iter_succ, Pos2Z.inj_succ, Z.pow_succ_r by lia.
    rewrite Pos2Z.inj_xO, IH. lia.
Qed.

Lemma shl_align_value m e e' :
  e' <= e -> Zpos (fst (shl_align m e e')) = Zpos m * 2 ^ (e - e').
Proof.
  intros H. unfold shl_align.
  destruct (e' - e) as [|d|d] eqn:E; cbn [fst].
  - replace (e - e') with 0 by lia. simpl. lia.
  - lia.
  - rewrite iter_xO. f_equal. f_equal. lia.
Qed.

(** A number taken from one that is not smaller leaves zero or more. *)
Lemma SFsub_nonneg s1 m1 e1 m2 e2 :
  bounded prec emax m1 e1 = true -> bounded prec emax m2 e2 = true ->
  SFrank (S754_finite false m2 e2) <= SFrank (S754_finite s1 m1 e1) ->
  SFnonneg (SF64sub (S754_finite s1 m1 e1) (S754_finite false m2 e2)).
Proof.
  intros V1 V2 H. cbn [SFrank] in H.
  pose proof (finite_rank_bounds _ _ V1). pose proof (finite_rank_bounds _ _ V2).
  destruct s1; [lia|].
  unfold SF64sub, SFsub. cbv zeta. cbn [cond_Zopp].
  apply binary_normalize_nonneg.
  rewrite !shl_align_value by lia.
  apply bounded_inv in V1 as (He1 & _). apply bounded_inv in V2 as (He2 & _).
  set (ez := Z.min e1 e2) in *.
  assert (E1 : 2 ^ (e1 + 1074) = 2 ^ (e1 - ez) * 2 ^ (ez + 1074)).
  { rewrite <- Z.pow_add_r by lia. f_equal. lia. }
  assert (E2 : 2 ^ (e2 + 1074) = 2 ^ (e2 - ez) * 2 ^ (ez + 1074)).
  { rewrite <- Z.pow_add_r by lia. f_equal. lia. }
  assert (0 < 2 ^ (ez + 1074)) by (apply Z.pow_pos_nonneg; lia).
  rewrite E1, E2 in H. nia.
Qed.
End Rank.

(** ** Results that are not negative *)

Section Signs.
Local Open Scope Z_scope.




End Signs.

(** ** Float comparisons as integer comparisons *)

Lemma is_finite_not_nan x : is_finite x = true -> is_nan x = false.
Proof.
  unfold is_finite. rewrite negb_true_iff, orb_false_iff. tauto.
Qed.


Lemma leb_true_rank x y :
  PrimFloat.leb x y = true <->
  is_nan x = false /\ is_nan y = false /\ (rank x <= rank y)%Z.
Proof.
  split.
  - intros H. destruct (leb_not_nan x y H) as [Hx Hy].
    rewrite (leb_rank x y Hx Hy) in H. apply Z.leb_le in H. tauto.
  - intros (Hx & Hy & H). rewrite (leb_rank x y Hx Hy). apply Z.leb_le, H.
Qed.

Lemma ltb_true_rank x y :
  PrimFloat.ltb x y = true <->
  is_nan x = false /\ is_nan y = false /\ (rank x < rank y)%Z.
Proof.
  split.
  - intros H. destruct (ltb_not_nan x y H) as [Hx Hy].
    rewrite (ltb_rank x y Hx Hy) in H. apply Z.ltb_lt in H. tauto.
  - intros (Hx & Hy & H). rewrite (ltb_rank x y Hx Hy). apply Z.ltb_lt, H.
Qed.





(** ** The frame time *)

Section Loop64.
Local Open Scope float_scope.







(** ** The turns of the loop *)

Lemma drain_S n a : drain (S n) a = drain n (a - F64.DT)%float.
Proof. exact (Nat.iter_succ_r n (fun a => a - F64.DT) a). Qed.



Lemma while_loop_turns n : forall fuel a g,
  (forall k, (k < n)%nat -> F64.geb (drain k a) F64.DT = true) ->
  F64.geb (drain n a) F64.DT = false ->
  (n <= fuel)%nat ->
  F64.while_loop fuel a g
  = Some (drain n a, Nat.iter n (F64.Game.update F64.DT) g,
          replicate n F64.DT).
Proof.
  induction n as [|n IH]; intros fuel a g Hk Hn Hfuel.
  - change (drain 0 a) with a in Hn. destruct fuel; cbn [F64.while_loop];
      rewrite Hn; reflexivity.
  - destruct fuel as [|fuel]; [lia|]. cbn [F64.while_loop].
    rewrite (Hk 0%nat ltac:(lia) : F64.geb a F64.DT = true).
    rewrite (IH fuel (a - F64.DT)%float (F64.Game.update F64.DT g)).
    + rewrite drain_S, Nat.iter_succ_r. reflexivity.
    + intros k Hlt. rewrite <- drain_S. apply Hk. lia.
    + rewrite <- drain_S. exact Hn.
    + lia.
Qed.


(** ** The main loop on binary64 *)





(** X12: a call of [loop] that finds, with the frame time, an accumulator
    that is not [>= DT] makes no update, whatever the fuel: it leaves the
    game as it is, renders it, records the timestamp and keeps the sum in
    the accumulator.  The frame time is not clamped from below: at the
    timestamp 0 after a previous one of 1000 it is -1. *)
Theorem loop_below_one_step
    (render : F64.Entity.t -> F64.Canvas.t -> F64.Canvas.t) (fuel : nat)
    (currentTime : float) (ctx : F64.Canvas.t) (game : F64.Game.t)
    (g : F64.Globals) :
  F64.geb (F64.accumulator g + F64.frameTime currentTime g) F64.DT = false ->
  F64.loop render fuel currentTime ctx game g
    = Some {| F64.frame_globals :=
                {| F64.previousTime := currentTime;
                   F64.accumulator :=
                     F64.accumulator g + F64.frameTime currentTime g |};
              F64.frame_ctx := F64.Game.render render ctx game;
              F64.frame_game := game;
              F64.frame_updates := [] |} /\
  F64.frameTime 0 {| F64.previousTime := 1000; F64.accumulator := 0 |} = -1.
Proof.
  intros H. split; [|reflexivity].
  unfold F64.loop.
  rewrite (while_loop_turns 0 fuel _ game); [reflexivity| |exact H|lia].
  intros k Hk. lia.
Qed.

Lemma loop_below_one_step_witness :
  F64.loop no_render 0 0 blank falling
           {| F64.previousTime := 1000; F64.accumulator := 0 |}
  = Some {| F64.frame_globals :=
              {| F64.previousTime := 0;
                 F64.accumulator :=
                   0 + F64.frameTime 0 {| F64.previousTime := 1000;
                                          F64.accumulator := 0 |} |};
            F64.frame_ctx := F64.Game.render no_render blank falling;
            F64.frame_game := falling;
            F64.frame_updates := [] |}.
Proof.
  refine (proj1 (loop_below_one_step no_render 0 0 blank falling
                   {| F64.previousTime := 1000; F64.accumulator := 0 |} _)).
  reflexivity.
Defined.

(** X2: on binary64 the number of updates depends on how the frames are
    spaced.  From the initial state, one frame at 50 ms makes 3 updates;
    a frame at 5 ms and one at 50 ms make none and 2, and leave
    0.01666666666666666 in the accumulator, just short of [DT]; a frame at
    300 ms after these two makes 16 updates, one more than
    [MAX_FRAME_TIME / DT = 15]: with fuel for 15 turns its [while] loop is
    still turning. *)
Theorem updates_depend_on_the_frames :
  (exists f,
     F64.frames no_render 16 [50] blank empty_game F64.initial = Some f /\
     F64.frame_updates f = replicate 3 F64.DT) /\
  (exists f,
     F64.frames no_render 16 [5; 50] blank empty_game F64.initial = Some f /\
     F64.frame_updates f = replicate 2 F64.DT /\
     F64.accumulator (F64.frame_globals f) = 0x1.111111111110fp-6 /\
     F64.geb (F64.accumulator (F64.frame_globals f)) F64.DT = false) /\
  (exists f1 f2,
     F64.frames no_render 16 [5; 50] blank empty_game F64.initial = Some f1 /\
     F64.loop no_render 16 300 (F64.frame_ctx f1) (F64.frame_game f1)
              (F64.frame_globals f1) = Some f2 /\
     F64.frame_updates f2 = replicate 16 F64.DT /\
     F64.loop no_render 15 300 (F64.frame_ctx f1) (F64.frame_game f1)
              (F64.frame_globals f1) = None) /\
  F64.MAX_FRAME_TIME / F64.DT = 15.
Proof.
  split; [|split; [|split]].
  - eexists. split; [vm_compute; reflexivity|reflexivity].
  - eexists. split; [vm_compute; reflexivity|]. repeat split.
  - eexists. eexists. split; [vm_compute; reflexivity|].
    split; [vm_compute; reflexivity|]. split; reflexivity.
  - reflexivity.
Qed.
End Loop64.

(** ** Bounding boxes on binary64 *)

Section Boxes64.
Local Open Scope float_scope.

Lemma to_Q_lt x y : (to_Q x < to_Q y)%Q <-> (rank x < rank y)%Z.
Proof.
  unfold to_Q, Qlt. cbn [Qnum Qden].
  generalize (2 ^ 1074)%positive. intros p.
  pose proof (Pos2Z.is_pos p). split; intros H0; nia.
Qed.

Lemma to_Q_le x y : (to_Q x <= to_Q y)%Q <-> (rank x <= rank y)%Z.
Proof.
  unfold to_Q, Qle. cbn [Qnum Qden].
  generalize (2 ^ 1074)%positive. intros p.
  pose proof (Pos2Z.is_pos p). split; intros H0; nia.
Qed.

Lemma overlap_pos (x1 r1 x2 r2 : Q) :
  (0 < overlap x1 r1 x2 r2 <-> x1 < r1 /\ x1 < r2 /\ x2 < r1 /\ x2 < r2)%Q.
Proof.
  unfold overlap.
  destruct (Q.min_spec r1 r2) as [[? ->]|[? ->]];
    destruct (Q.max_spec x1 x2) as [[? ->]|[? ->]];
    split; intros; repeat split; lra.
Qed.

Lemma area_pos (w h : Q) : (0 < area w h <-> 0 < w /\ 0 < h)%Q.
Proof.
  unfold area.
  destruct (Q.max_spec 0 w) as [[Hw ->]|[Hw ->]];
    destruct (Q.max_spec 0 h) as [[Hh ->]|[Hh ->]].
  - split; [intros _; split; assumption|intros _; nra].
  - split; [intros H; lra|intros [_ H]; lra].
  - split; [intros H; lra|intros [H _]; lra].
  - split; [intros H; lra|intros [H _]; lra].
Qed.

Lemma no_nan_edges a :
  no_nan a = true ->
  is_nan (F64.BoundingBox.x a) = false /\
  is_nan (F64.BoundingBox.y a) = false /\
  is_nan (F64.BoundingBox.right a) = false /\
  is_nan (F64.BoundingBox.bottom a) = false.
Proof.
  unfold no_nan. rewrite negb_true_iff, !orb_false_iff. tauto.
Qed.

Lemma finite_box_no_nan a : finite_box a = true -> no_nan a = true.
Proof.
  unfold finite_box, no_nan. rewrite !andb_true_iff.
  intros [[[H1 H2] H3] H4].
  rewrite !is_finite_not_nan by assumption. reflexivity.
Qed.

Lemma not_leb_rank x y :
  is_nan x = false -> is_nan y = false ->
  (x <=? y) = false <-> (rank y < rank x)%Z.
Proof.
  intros Hx Hy. rewrite (leb_rank x y Hx Hy). apply Z.leb_gt.
Qed.

(** Without NaN, [intersects] is four strict comparisons of edges. *)
Lemma intersects_rank a b :
  no_nan a = true -> no_nan b = true ->
  F64.BoundingBox.intersects a b = true <->
  (rank (F64.BoundingBox.x a) < rank (F64.BoundingBox.right b) /\
   rank (F64.BoundingBox.x b) < rank (F64.BoundingBox.right a) /\
   rank (F64.BoundingBox.y a) < rank (F64.BoundingBox.bottom b) /\
   rank (F64.BoundingBox.y b) < rank (F64.BoundingBox.bottom a))%Z.
Proof.
  intros Ha Hb.
  destruct (no_nan_edges a Ha) as (Ax & Ay & Ar & Ab).
  destruct (no_nan_edges b Hb) as (Bx & By & Br & Bb).
  unfold F64.BoundingBox.intersects, F64.geb, F64.leb.
  rewrite negb_true_iff, !orb_false_iff.
  rewrite (not_leb_rank _ _ Br Ax), (not_leb_rank _ _ Ar Bx),
          (not_leb_rank _ _ Bb Ay), (not_leb_rank _ _ Ab By).
  tauto.
Qed.

(** A box of no width and no height inside [{0,0,10,10}] intersects it,
    though the two have no area in common; and the box [{2^53,0,1,1}]
    does not intersect itself, though it has all its area, 1, in common
    with itself: its [right()], [2^53 + 1], rounds to [2^53]. *)
Lemma intersects_is_not_positive_area :
  (F64.BoundingBox.intersects point_5_5 box_0_0_10_10 = true /\
   (exact_overlap_area point_5_5 box_0_0_10_10 == 0)%Q) /\
  (F64.BoundingBox.intersects far_box far_box = false /\
   (exact_overlap_area far_box far_box == 1)%Q).
Proof.
  split; split; vm_compute; reflexivity.
Qed.

(** C2, amended: for bounding boxes whose [x], [y], [right()] and
    [bottom()] are finite, with [right() > x] and [bottom() > y],
    [a.intersects(b)] is true if and only if the rectangles from [x] to
    [right()] and from [y] to [bottom()] have a part of strictly positive
    area in common, [right()] and [bottom()] being the sums [x + width]
    and [y + height] as binary64 rounds them; where the four sums are
    exact, that area is the area the rectangles [{x, y, width, height}]
    have in common.  The boxes [{0,0,10,10}] and [{10,0,10,10}], which
    share a boundary line, do not intersect, and [{0,0,10,10}] and
    [{9,0,10,10}] do. *)
Theorem intersects_iff_positive_area (a b : F64.BoundingBox.t) :
  finite_box a = true -> finite_box b = true ->
  has_extent a = true -> has_extent b = true ->
  (F64.BoundingBox.intersects a b = true
   <-> (0 < computed_overlap_area a b)%Q) /\
  (exact_edges a -> exact_edges b ->
   (computed_overlap_area a b == exact_overlap_area a b)%Q) /\
  F64.BoundingBox.intersects box_0_0_10_10 box_10_0_10_10 = false /\
  F64.BoundingBox.intersects box_0_0_10_10 box_9_0_10_10 = true.
Proof.
  intros Fa Fb Ea Eb.
  split; [|split; [|split; reflexivity]].
  - rewrite (intersects_rank a b (finite_box_no_nan a Fa)
               (finite_box_no_nan b Fb)).
    unfold has_extent, F64.gtb in Ea, Eb.
    apply andb_true_iff in Ea as [Ea1 Ea2].
    apply andb_true_iff in Eb as [Eb1 Eb2].
    apply ltb_true_rank in Ea1 as (_ & _ & Ea1).
    apply ltb_true_rank in Ea2 as (_ & _ & Ea2).
    apply ltb_true_rank in Eb1 as (_ & _ & Eb1).
    apply ltb_true_rank in Eb2 as (_ & _ & Eb2).
    unfold computed_overlap_area.
    rewrite area_pos, !overlap_pos, !to_Q_lt. tauto.
  - intros [Ha1 Ha2] [Hb1 Hb2].
    unfold computed_overlap_area, exact_overlap_area, area, overlap.
    rewrite Ha1, Ha2, Hb1, Hb2. reflexivity.
Qed.

Lemma intersects_iff_positive_area_witness :
  F64.BoundingBox.intersects box_0_0_10_10 box_9_0_10_10 = true
  <-> (0 < computed_overlap_area box_0_0_10_10 box_9_0_10_10)%Q.
Proof.
  refine (proj1 (intersects_iff_positive_area box_0_0_10_10 box_9_0_10_10
                   _ _ _ _)); reflexivity.
Defined.

(** X3: a box moved with [setPosition] to [x = b.right()], or to
    [y = b.bottom()], does not intersect [b], and [b] does not intersect
    it, whatever the sizes of the two, unless that edge of [b] is NaN.
    Moved to [x = b.x - a.width] it may: the box [{0,0,1.1,10}] moved
    to the left of [{0.3,0,10,10}] intersects it, its [right()] being
    rounded to above 0.3. *)
Theorem box_against_an_edge_does_not_intersect
    (a b : F64.BoundingBox.t) (x y : float) :
  (is_nan (F64.BoundingBox.right b) = false ->
   F64.BoundingBox.intersects
     (F64.BoundingBox.setPosition (F64.BoundingBox.right b) y a) b = false /\
   F64.BoundingBox.intersects
     b (F64.BoundingBox.setPosition (F64.BoundingBox.right b) y a) = false) /\
  (is_nan (F64.BoundingBox.bottom b) = false ->
   F64.BoundingBox.intersects
     (F64.BoundingBox.setPosition x (F64.BoundingBox.bottom b) a) b = false /\
   F64.BoundingBox.intersects
     b (F64.BoundingBox.setPosition x (F64.BoundingBox.bottom b) a) = false) /\
  F64.BoundingBox.intersects
    (F64.BoundingBox.setPosition
       (F64.BoundingBox.x box_b - F64.BoundingBox.width box_a) 0 box_a)
    box_b = true.
Proof.
  assert (R : forall z, is_nan z = false -> (z <=? z) = true).
  { intros z Hz. rewrite (leb_rank z z Hz Hz). apply Z.leb_refl. }
  split; [|split; [|vm_compute; reflexivity]].
  - intros H.
    unfold F64.BoundingBox.intersects, F64.geb, F64.leb.
    cbn [F64.BoundingBox.x F64.BoundingBox.setPosition].
    rewrite (R _ H). cbn [orb negb].
    rewrite ?orb_true_r. cbn [orb negb]. split; reflexivity.
  - intros H.
    unfold F64.BoundingBox.intersects, F64.geb, F64.leb.
    cbn [F64.BoundingBox.y F64.BoundingBox.setPosition].
    rewrite (R _ H). rewrite ?orb_true_r. cbn [orb negb].
    rewrite ?orb_true_r. cbn [orb negb]. split; reflexivity.
Qed.

(** X4: a bounding box whose [x], [y], [right()] and [bottom()] are not
    NaN intersects itself if and only if [x < right()] and
    [y < bottom()].  A positive width and height are not enough:
    [{2^53,0,1,1}] does not intersect itself, and [{0,0,10,10}] does. *)
Theorem intersects_itself_iff_edges_apart (a : F64.BoundingBox.t) :
  no_nan a = true ->
  (F64.BoundingBox.intersects a a = true <->
   F64.gtb (F64.BoundingBox.right a) (F64.BoundingBox.x a) = true /\
   F64.gtb (F64.BoundingBox.bottom a) (F64.BoundingBox.y a) = true) /\
  (F64.gtb (F64.BoundingBox.width far_box) 0 = true /\
   F64.gtb (F64.BoundingBox.height far_box) 0 = true /\
   F64.BoundingBox.intersects far_box far_box = false) /\
  F64.BoundingBox.intersects box_0_0_10_10 box_0_0_10_10 = true.
Proof.
  intros Ha. split; [|split; [repeat split|]; reflexivity].
  rewrite (intersects_rank a a Ha Ha).
  destruct (no_nan_edges a Ha) as (Ax & Ay & Ar & Ab).
  unfold F64.gtb. rewrite !ltb_true_rank. tauto.
Qed.

Lemma intersects_itself_iff_edges_apart_witness :
  F64.BoundingBox.intersects box_9_0_10_10 box_9_0_10_10 = true <->
  F64.gtb (F64.BoundingBox.right box_9_0_10_10)
          (F64.BoundingBox.x box_9_0_10_10) = true /\
  F64.gtb (F64.BoundingBox.bottom box_9_0_10_10)
          (F64.BoundingBox.y box_9_0_10_10) = true.
Proof.
  refine (proj1 (intersects_itself_iff_edges_apart box_9_0_10_10 _)).
  reflexivity.
Defined.

(** X5: [intersects] is monotone in the edges the code computes: if [a]
    intersects [b], and [b] lies within [c] by its [x], [y], [right()]
    and [bottom()], edges included, then [a] intersects [c] and [c]
    intersects [a]. *)
Theorem intersects_is_monotone (a b c : F64.BoundingBox.t) :
  F64.BoundingBox.intersects a b = true ->
  within b c = true ->
  F64.BoundingBox.intersects a c = true /\
  F64.BoundingBox.intersects c a = true.
Proof.
  intros Hab Hbc.
  unfold within, F64.leb in Hbc. rewrite !andb_true_iff in Hbc.
  destruct Hbc as [[[Hx Hr] Hy] Hb].
  apply leb_true_rank in Hx as (Cx & Bx & Hx).
  apply leb_true_rank in Hr as (Br & Cr & Hr).
  apply leb_true_rank in Hy as (Cy & By & Hy).
  apply leb_true_rank in Hb as (Bb & Cb & Hb).
  unfold F64.BoundingBox.intersects, F64.geb, F64.leb in *.
  rewrite negb_true_iff, !orb_false_iff in Hab.
  destruct Hab as [[[H1 H2] H3] H4].
  assert (G1 : (F64.BoundingBox.right c <=? F64.BoundingBox.x a) = false).
  { destruct (F64.BoundingBox.right c <=? F64.BoundingBox.x a) eqn:E;
      [|reflexivity].
    apply leb_true_rank in E as (_ & Ax & E).
    rewrite <- H1. symmetry. apply leb_true_rank.
    repeat split; [assumption|assumption|lia]. }
  assert (G2 : (F64.BoundingBox.right a <=? F64.BoundingBox.x c) = false).
  { destruct (F64.BoundingBox.right a <=? F64.BoundingBox.x c) eqn:E;
      [|reflexivity].
    apply leb_true_rank in E as (Ar & _ & E).
    rewrite <- H2. symmetry. apply leb_true_rank.
    repeat split; [assumption|assumption|lia]. }
  assert (G3 : (F64.BoundingBox.bottom c <=? F64.BoundingBox.y a) = false).
  { destruct (F64.BoundingBox.bottom c <=? F64.BoundingBox.y a) eqn:E;
      [|reflexivity].
    apply leb_true_rank in E as (_ & Ay & E).
    rewrite <- H3. symmetry. apply leb_true_rank.
    repeat split; [assumption|assumption|lia]. }
  assert (G4 : (F64.BoundingBox.bottom a <=? F64.BoundingBox.y c) = false).
  { destruct (F64.BoundingBox.bottom a <=? F64.BoundingBox.y c) eqn:E;
      [|reflexivity].
    apply leb_true_rank in E as (Ab & _ & E).
    rewrite <- H4. symmetry. apply leb_true_rank.
    repeat split; [assumption|assumption|lia]. }
  rewrite G1, G2, G3, G4. split; reflexivity.
Qed.

Lemma intersects_is_monotone_witness :
  F64.BoundingBox.intersects point_5_5 (F64.BoundingBox.new 0 0 20 20) = true
  /\ F64.BoundingBox.intersects (F64.BoundingBox.new 0 0 20 20) point_5_5
     = true.
Proof.
  apply (intersects_is_monotone point_5_5 box_0_0_10_10
           (F64.BoundingBox.new 0 0 20 20)); reflexivity.
Defined.
End Boxes64.

(** ** A falling entity on binary64 *)

Section Falling64.
Local Open Scope float_scope.

(** X1: in a game of three rows of three empty tiles, an entity at
    [y = 0] that falls at 48 units a second is, after 90 calls of
    [Game.update(DT)], at [y = 71.99999999999987], short of the line at
    [3 * 24 = 72], and alive; the call after, it is past the line and
    finished; after 120 calls it is at [y = 95.99999999999979], and
    finished. *)
Theorem falling_entity_dies :
  F64.Game.bottom (F64.Game.tiles falling) = 72 /\
  (exists e,
     F64.Game.heap (Nat.iter 90 (F64.Game.update F64.DT) falling) !! 0%nat
       = Some e /\
     F64.BoundingBox.y (F64.Entity.bb e) = 0x1.1fffffffffff7p+6 /\
     F64.Entity.finished e = false) /\
  (exists e,
     F64.Game.heap (Nat.iter 91 (F64.Game.update F64.DT) falling) !! 0%nat
       = Some e /\
     F64.gtb (F64.BoundingBox.y (F64.Entity.bb e)) 72 = true /\
     F64.Entity.finished e = true) /\
  (exists e,
     F64.Game.heap (Nat.iter 120 (F64.Game.update F64.DT) falling) !! 0%nat
       = Some e /\
     F64.BoundingBox.y (F64.Entity.bb e) = 0x1.7fffffffffff1p+6 /\
     F64.Entity.finished e = true).
Proof.
  split; [vm_compute; reflexivity|].
  split; [|split]; eexists; (split; [vm_compute; reflexivity|]);
    split; reflexivity.
Qed.
End Falling64.
